(** * Arduino Code Complexity Analyzer: a shallow embedding

    The development follows [CodeComplexityAnalyzer] of
    "Arduino Code Complexity Analyzer.py": the lexical stripper
    ([remove_comments_and_strings]), the line classifier ([count_lines]),
    the complexity counter ([calculate_cyclomatic_complexity]), the function
    extractor ([find_functions]), the nesting analyzer
    ([calculate_nesting_depth]) and the two aggregators ([analyze_file],
    [analyze_project]).

    Conventions.
    - A Python [str] is a [list ascii]; a character is a code point below 256.
    - A Python [int] is a [Z].
    - A Python number that may be an [int] or a [float] is the rational in
      [Q] it denotes, in lowest terms.  A [float] is an IEEE binary64 value
      with round-to-nearest, ties to even ([binary64]); the exponent range is
      not bounded, which agrees with the program on every magnitude from
      2^-1022 up to 2^1024, where the means of the program lie.
    - The regular expressions of the program are terms of [regex], run by a
      backtracking matcher that enumerates the matches at a position in the
      priority order of Python's [re] (greedy repetition, ordered
      alternation). *)

From Stdlib Require Import Ascii String.
From Stdlib Require Import List ZArith QArith Lia Bool Arith.
From Stdlib Require Import Permutation Sorted.
Import ListNotations.
Local Close Scope Q_scope.

Set Implicit Arguments.

(** ** Characters and text *)

Definition text := list ascii.

Definition T (s : string) : text := list_ascii_of_string s.

Definition NL : ascii := "010"%char.
Definition DQ : ascii := "034"%char.
Definition SQ : ascii := "039"%char.
Definition BS : ascii := "\"%char.

Definition code (c : ascii) : nat := nat_of_ascii c.

Definition between (lo hi n : nat) : bool := (lo <=? n) && (n <=? hi).

(** [str.isspace] / the class [\s], on code points below 256. *)
Definition is_space (c : ascii) : bool :=
  let n := code c in
  between 9 13 n || between 28 32 n || (n =? 133) || (n =? 160).

(** The class [\w]: alphanumeric or underscore, on code points below 256. *)
Definition is_word (c : ascii) : bool :=
  let n := code c in
  between 48 57 n || between 65 90 n || between 97 122 n || (n =? 95)
  || (n =? 170) || (n =? 178) || (n =? 179) || (n =? 181) || (n =? 185)
  || (n =? 186) || between 188 190 n || between 192 214 n
  || between 216 246 n || between 248 255 n.

(** Lower-casing of the ASCII letters, used by [re.IGNORECASE]. *)
Definition lower (c : ascii) : ascii :=
  let n := code c in
  if between 65 90 n then ascii_of_nat (n + 32) else c.

(** ** Regular expressions *)

Inductive regex : Type :=
| Eps
| Chr (p : ascii -> bool)
| Seq (a b : regex)
| Alt (a b : regex)
| Star (a : regex)
| Bol (multiline : bool)
| Eol (multiline : bool)
| WordB
| Group (a : regex).

(** A position of the matcher: the character before it (for [^] and [\b]),
    the text from it on, and what group 1 holds. *)
Record mstate : Type := MState {
  prev : option ascii;
  rest : text;
  grp : option text
}.

Definition word_opt (o : option ascii) : bool :=
  match o with Some c => is_word c | None => false end.

Definition at_bol (multiline : bool) (s : mstate) : bool :=
  match prev s with
  | None => true
  | Some c => multiline && Ascii.eqb c NL
  end.

Definition at_eol (multiline : bool) (s : mstate) : bool :=
  match rest s with
  | [] => true
  | c :: tl =>
      Ascii.eqb c NL && (multiline || match tl with [] => true | _ => false end)
  end.

Definition at_wordb (s : mstate) : bool :=
  xorb (word_opt (prev s)) (word_opt (hd_error (rest s))).

(** Greedy repetition: one more round of [step] first, the position itself
    last.  A round that consumes nothing ends the repetition. *)
Fixpoint star_loop (step : mstate -> list mstate) (fuel : nat) (s : mstate)
  : list mstate :=
  match fuel with
  | O => [s]
  | S fuel' =>
      flat_map (fun s' =>
                  if length (rest s') <? length (rest s)
                  then star_loop step fuel' s' else [])
               (step s) ++ [s]
  end.

(** All the ways [r] matches at [s], best first. *)
Fixpoint matches (r : regex) (s : mstate) : list mstate :=
  match r with
  | Eps => [s]
  | Chr p =>
      match rest s with
      | c :: tl => if p c then [MState (Some c) tl (grp s)] else []
      | [] => []
      end
  | Seq a b => flat_map (matches b) (matches a s)
  | Alt a b => matches a s ++ matches b s
  | Star a => star_loop (matches a) (length (rest s)) s
  | Bol m => if at_bol m s then [s] else []
  | Eol m => if at_eol m s then [s] else []
  | WordB => if at_wordb s then [s] else []
  | Group a =>
      map (fun s' =>
             MState (prev s') (rest s')
                    (Some (firstn (length (rest s) - length (rest s')) (rest s))))
          (matches a s)
  end.

Definition Plus (a : regex) : regex := Seq a (Star a).
Definition Opt (a : regex) : regex := Alt a Eps.

Definition ch (c : ascii) : regex := Chr (Ascii.eqb c).
Definition chi (c : ascii) : regex := Chr (fun x => Ascii.eqb (lower x) (lower c)).

Fixpoint lit (s : string) : regex :=
  match s with
  | EmptyString => Eps
  | String c s' => Seq (ch c) (lit s')
  end.

Fixpoint lit_i (s : string) : regex :=
  match s with
  | EmptyString => Eps
  | String c s' => Seq (chi c) (lit_i s')
  end.

Definition dot : regex := Chr (fun c => negb (Ascii.eqb c NL)).
Definition space : regex := Chr is_space.
Definition word : regex := Chr is_word.

Declare Scope re_scope.
Delimit Scope re_scope with re.
Bind Scope re_scope with regex.
Infix ";;" := Seq (at level 61, right associativity) : re_scope.
Infix "<|>" := Alt (at level 62, right associativity) : re_scope.

(** ** [re.match], [re.search], [re.sub], [re.findall] *)

Record re_match : Type := ReMatch {
  m_start : nat;
  m_end : nat;
  m_group1 : option text
}.

Definition first_match (r : regex) (p : option ascii) (t : text) : option mstate :=
  hd_error (matches r (MState p t None)).

(** Number of characters a match that stops at [s'] took from [t]. *)
Definition taken (t : text) (s' : mstate) : nat := length t - length (rest s').

(** [re.match(r, t)]: a match at position 0. *)
Definition re_match_at0 (r : regex) (t : text) : option re_match :=
  match first_match r None t with
  | Some s' => Some (ReMatch 0 (taken t s') (grp s'))
  | None => None
  end.

Fixpoint search_from (r : regex) (p : option ascii) (pos : nat) (t : text)
  : option re_match :=
  match first_match r p t with
  | Some s' => Some (ReMatch pos (pos + taken t s') (grp s'))
  | None =>
      match t with
      | [] => None
      | c :: tl => search_from r (Some c) (S pos) tl
      end
  end.

(** [re.search(r, t)]: the leftmost position with a match, and the best match
    there. *)
Definition re_search (r : regex) (t : text) : option re_match :=
  search_from r None 0 t.

(** [re.sub(r, repl, t)] for a replacement without group references.  [skip]
    counts the characters of the current match still to be dropped.  None of
    the patterns of the program matches the empty string; on an empty match
    the replacement is inserted and the scan moves on by one character. *)
Fixpoint sub_from (r : regex) (repl : text) (p : option ascii) (skip : nat)
  (t : text) : text :=
  match skip with
  | S k =>
      match t with
      | [] => []
      | c :: tl => sub_from r repl (Some c) k tl
      end
  | O =>
      match first_match r p t with
      | Some s' =>
          repl ++
          match t with
          | [] => []
          | c :: tl =>
              match taken t s' with
              | O => c :: sub_from r repl (Some c) 0 tl
              | S k => sub_from r repl (Some c) k tl
              end
          end
      | None =>
          match t with
          | [] => []
          | c :: tl => c :: sub_from r repl (Some c) 0 tl
          end
      end
  end.

Definition re_sub (r : regex) (repl : text) (t : text) : text :=
  sub_from r repl None 0 t.

(** [re.findall(r, t)] for a pattern without groups: the matched pieces. *)
Fixpoint findall_from (r : regex) (p : option ascii) (skip : nat) (t : text)
  : list text :=
  match skip with
  | S k =>
      match t with
      | [] => []
      | c :: tl => findall_from r (Some c) k tl
      end
  | O =>
      match first_match r p t with
      | Some s' =>
          firstn (taken t s') t ::
          match t with
          | [] => []
          | c :: tl => findall_from r (Some c) (pred (taken t s')) tl
          end
      | None =>
          match t with
          | [] => []
          | c :: tl => findall_from r (Some c) 0 tl
          end
      end
  end.

Definition re_findall (r : regex) (t : text) : list text :=
  findall_from r None 0 t.

(** ** The patterns of [CodeComplexityAnalyzer.__init__] *)

Local Open Scope re_scope.
Local Open Scope char_scope.

(** The control structures, as compiled with [re.IGNORECASE | re.MULTILINE]:
    [\bif\s*\(], [\belse\s+if\s*\(], [\bwhile\s*\(], [\bfor\s*\(],
    [\bdo\s*\{], [\bswitch\s*\(], [\bcase\s+], [\bcatch\s*\(] and
    [\?\s*.*\s*:]. *)
Definition control_structures : list regex :=
  [ WordB ;; lit_i "if" ;; Star space ;; ch "(";
    WordB ;; lit_i "else" ;; Plus space ;; lit_i "if" ;; Star space ;; ch "(";
    WordB ;; lit_i "while" ;; Star space ;; ch "(";
    WordB ;; lit_i "for" ;; Star space ;; ch "(";
    WordB ;; lit_i "do" ;; Star space ;; ch "{";
    WordB ;; lit_i "switch" ;; Star space ;; ch "(";
    WordB ;; lit_i "case" ;; Plus space;
    WordB ;; lit_i "catch" ;; Star space ;; ch "(";
    ch "?" ;; Star space ;; Star dot ;; Star space ;; ch ":" ].

(** The function header, piece by piece (no flags):
    [^\s*]  [(?:(?:inline|static|virtual|explicit|const)\s+)*]
    [(?:\w+(?:\s*\*|\s*&)?(?:\s*const)?\s+)+]  [(\w+)]  [\s*]  [\(]  [[^;]*]
    [\)]  [\s*]  [(?:const\s* )?]  [(?:override\s* )?]  [(?:final\s* )?]
    [\s*]  [\{]. *)
Definition function_pattern : regex :=
  Bol false ;; Star space ;;
  Star ((lit "inline" <|> lit "static" <|> lit "virtual" <|> lit "explicit"
         <|> lit "const") ;; Plus space) ;;
  Plus (Plus word ;;
        Opt ((Star space ;; ch "*") <|> (Star space ;; ch "&")) ;;
        Opt (Star space ;; lit "const") ;;
        Plus space) ;;
  Group (Plus word) ;; Star space ;;
  ch "(" ;; Star (Chr (fun c => negb (Ascii.eqb c ";"))) ;; ch ")" ;;
  Star space ;;
  Opt (lit "const" ;; Star space) ;;
  Opt (lit "override" ;; Star space) ;;
  Opt (lit "final" ;; Star space) ;;
  Star space ;; ch "{".

(** [//.*$], as compiled with [re.MULTILINE]. *)
Definition single_comment : regex := lit "//" ;; Star dot ;; Eol true.

(** [/\*] and [\*/]. *)
Definition multi_comment_start : regex := lit "/*".
Definition multi_comment_end : regex := lit "*/".

(** [q(?:[^q\\]|\\.)*q] for a quote character [q]: the double-quoted and
    the single-quoted literals that [remove_comments_and_strings] replaces. *)
Definition quoted_body (q : ascii) : regex :=
  Chr (fun c => negb (Ascii.eqb c q || Ascii.eqb c BS)) <|> (ch BS ;; dot).

Definition quoted (q : ascii) : regex :=
  ch q ;; Star (quoted_body q) ;; ch q.

(** [^\s*/\*.*\*/\s*$], the comment-only line of [count_lines]. *)
Definition block_comment_line : regex :=
  Bol false ;; Star space ;; lit "/*" ;; Star dot ;; lit "*/" ;; Star space ;;
  Eol false.

Local Close Scope re_scope.
Local Close Scope char_scope.

(** ** The Lexical Stripper: [remove_comments_and_strings] *)

(** One round of the [while True] loop: [Continue] is the assignment
    [content = content[:start] + content[end:]], [Break] either [break]. *)
Inductive loop_step : Type :=
| Continue (content : text)
| Break (content : text).

Definition multi_comment_step (content : text) : loop_step :=
  match re_search multi_comment_start content with
  | None => Break content
  | Some m =>
      let start := m_start m in
      match re_search multi_comment_end (skipn start content) with
      | Some end_match =>
          let e := start + m_end end_match in
          Continue (firstn start content ++ skipn e content)
      | None => Break (firstn start content)
      end
  end.

(** The loop, run for at most [fuel] rounds; [None] when they do not
    suffice. *)
Fixpoint multi_comment_loop (fuel : nat) (content : text) : option text :=
  match fuel with
  | O => None
  | S fuel' =>
      match multi_comment_step content with
      | Continue content' => multi_comment_loop fuel' content'
      | Break content' => Some content'
      end
  end.

(** The rounds [length content + 1] always suffice ([multi_comment_loop_total]
    below), so the second branch is never taken. *)
Definition remove_multi_comments (content : text) : text :=
  match multi_comment_loop (S (length content)) content with
  | Some r => r
  | None => content
  end.

(** The first three assignments of [remove_comments_and_strings]: string
    literals, character literals, then [//] comments. *)
Definition remove_strings_and_line_comments (content : text) : text :=
  let content := re_sub (quoted DQ) [DQ; DQ] content in
  let content := re_sub (quoted SQ) [SQ; SQ] content in
  re_sub single_comment [] content.

Definition remove_comments_and_strings (content : text) : text :=
  remove_multi_comments (remove_strings_and_line_comments content).

(** ** The Line Classifier: [count_lines] *)

(** [f.readlines()]: the lines with their line ends. *)
Fixpoint readlines (t : text) : list text :=
  match t with
  | [] => []
  | c :: tl =>
      if Ascii.eqb c NL then [c] :: readlines tl
      else match readlines tl with
           | [] => [[c]]
           | l :: ls => (c :: l) :: ls
           end
  end.

Fixpoint lstrip (t : text) : text :=
  match t with
  | [] => []
  | c :: tl => if is_space c then lstrip tl else t
  end.

Definition rstrip (t : text) : text := rev (lstrip (rev t)).

(** [line.strip()] *)
Definition strip (t : text) : text := rstrip (lstrip t).

Fixpoint startswith (p t : text) : bool :=
  match p, t with
  | [], _ => true
  | _ :: _, [] => false
  | a :: p', b :: t' => Ascii.eqb a b && startswith p' t'
  end.

(** [p in t] *)
Fixpoint contains (p t : text) : bool :=
  startswith p t ||
  match t with
  | [] => false
  | _ :: tl => contains p tl
  end.

Definition is_some {A : Type} (o : option A) : bool :=
  match o with Some _ => true | None => false end.

(** The local variables of the loop of [count_lines]. *)
Record line_counts : Type := LineCounts {
  loc : Z;
  comments : Z;
  blank : Z;
  in_multiline_comment : bool
}.

Definition OPEN : text := T "/*".
Definition CLOSE : text := T "*/".

(** The body of [for line in lines]. *)
Definition count_line (st : line_counts) (raw : text) : line_counts :=
  let line := strip raw in
  let '(LineCounts l c b f) := st in
  match line with
  | [] => LineCounts l c (b + 1) f
  | _ :: _ =>
      if contains OPEN line && contains CLOSE line then
        if negb (is_some (re_match_at0 block_comment_line line))
        then LineCounts (l + 1) c b f
        else LineCounts l (c + 1) b f
      else if contains OPEN line then LineCounts l (c + 1) b true
      else if contains CLOSE line then LineCounts l (c + 1) b false
      else if f then LineCounts l (c + 1) b f
      else if startswith (T "//") line then LineCounts l (c + 1) b f
      else LineCounts (l + 1) c b f
  end.

(** [count_lines] on the outcome of reading the file: [None] when [open] or
    [readlines] raises. *)
Definition count_lines (file : option text) : Z * Z * Z :=
  match file with
  | None => (0, 0, 0)%Z
  | Some content =>
      let st := fold_left count_line (readlines content)
                          (LineCounts 0 0 0 false) in
      (loc st, comments st, blank st)
  end.

(** ** The Complexity Counter: [calculate_cyclomatic_complexity] *)

Definition calculate_cyclomatic_complexity (content : text) : Z :=
  let content := remove_comments_and_strings content in
  fold_left
    (fun complexity pattern =>
       (complexity + Z.of_nat (length (re_findall pattern content)))%Z)
    control_structures 1%Z.

(** ** The Function Extractor: [find_functions] *)

(** [t.split('\n')] *)
Fixpoint split_lines (t : text) : list text :=
  match t with
  | [] => [[]]
  | c :: tl =>
      if Ascii.eqb c NL then [] :: split_lines tl
      else match split_lines tl with
           | [] => [[c]]
           | l :: ls => (c :: l) :: ls
           end
  end.

(** ['\n'.join(ls)] *)
Fixpoint join_lines (ls : list text) : text :=
  match ls with
  | [] => []
  | l :: ls' =>
      match ls' with
      | [] => l
      | _ :: _ => l ++ NL :: join_lines ls'
      end
  end.

(** [line.count(c)] for a one-character [c]. *)
Definition count_char (c : ascii) (line : text) : Z :=
  Z.of_nat (length (filter (Ascii.eqb c) line)).

Definition net_braces (line : text) : Z :=
  (count_char "{" line - count_char "}" line)%Z.

(** [func_match.group(1)] *)
Definition group1 (m : re_match) : text :=
  match m_group1 m with Some g => g | None => [] end.

(** A tuple [(name, complexity, len(function_content))]. *)
Definition function_record : Type := (text * Z * Z)%type.

(** The local variables of the loop of [find_functions]. *)
Record find_state : Type := FindState {
  functions : list function_record;
  current_function : option text;
  brace_count : Z;
  function_content : list text
}.

(** The body of [for i, line in enumerate(lines)]. *)
Definition find_line (st : find_state) (line : text) : find_state :=
  let func_match := re_search function_pattern line in
  match func_match, current_function st with
  | Some m, None =>
      (* the header line: open the function, then [continue] *)
      FindState (functions st) (Some (group1 m)) (net_braces line) [line]
  | _, Some name =>
      let function_content := function_content st ++ [line] in
      let brace_count := (brace_count st + net_braces line)%Z in
      if (brace_count <=? 0)%Z then
        let func_code := join_lines function_content in
        let complexity := calculate_cyclomatic_complexity func_code in
        FindState
          (functions st ++
             [(name, complexity, Z.of_nat (length function_content))])
          None 0%Z []
      else FindState (functions st) (Some name) brace_count function_content
  | None, None => st
  end.

Definition find_functions (content : text) : list function_record :=
  let content_clean := remove_comments_and_strings content in
  let lines := split_lines content_clean in
  functions (fold_left find_line lines (FindState [] None 0%Z [])).

(** ** The Nesting Analyzer: [calculate_nesting_depth] *)

(** The body of [for char in content], on [(max_depth, current_depth)]. *)
Definition nesting_char (st : Z * Z) (char : ascii) : Z * Z :=
  let '(max_depth, current_depth) := st in
  if Ascii.eqb char "{" then
    let current_depth := (current_depth + 1)%Z in
    (Z.max max_depth current_depth, current_depth)
  else if Ascii.eqb char "}" then
    (max_depth, Z.max 0 (current_depth - 1))
  else st.

Definition calculate_nesting_depth (content : text) : Z :=
  let content := remove_comments_and_strings content in
  fst (fold_left nesting_char content (0%Z, 0%Z)).

(** ** The aggregators: [analyze_file] and [analyze_project] *)

Definition sum (l : list Z) : Z := fold_left Z.add l 0%Z.

(** [max(l)] of a list the caller has checked to be non-empty. *)
Definition max_of (l : list Z) : Z :=
  match l with
  | [] => 0%Z
  | x :: xs => fold_left Z.max xs x
  end.

(** The integer nearest to [n / d], for [d > 0]; of two equally near ones
    the even one. *)
Definition round_half_even (n d : Z) : Z :=
  let q := (n / d)%Z in
  let r2 := (2 * (n mod d))%Z in
  if (r2 <? d)%Z then q
  else if (d <? r2)%Z then (q + 1)%Z
  else if Z.even q then q else (q + 1)%Z.

(** [n / d] divided by [2^e], as a fraction of integers. *)
Definition scaled (n d e : Z) : Z * Z :=
  if (0 <=? e)%Z then (n, (d * 2 ^ e)%Z) else ((n * 2 ^ (- e))%Z, d).

(** The integer part of the binary logarithm of [n / d], for [n, d > 0]. *)
Definition ilog2 (n d : Z) : Z :=
  let k := (Z.log2 n - Z.log2 d)%Z in
  let '(a, b) := scaled n d k in
  if (b <=? a)%Z then k else (k - 1)%Z.

(** [2^e] for an exponent of either sign. *)
Definition pow2 (e : Z) : Q :=
  if (0 <=? e)%Z then inject_Z (2 ^ e) else Qmake 1 (Z.to_pos (2 ^ (- e))).

(** The binary64 value nearest to a rational (a mantissa of 53 bits, ties to
    the even mantissa): what [float(Fraction(n, d))] and the conversion of a
    decimal numeral to a [float] return. *)
Definition binary64 (x : Q) : Q :=
  let n := Qnum x in
  let d := Zpos (Qden x) in
  if (n =? 0)%Z then 0%Q
  else
    let e := (ilog2 (Z.abs n) d - 52)%Z in
    let '(a, b) := scaled (Z.abs n) d e in
    let m := round_half_even a b in
    Qred (Qmult (inject_Z (Z.sgn n * m)) (pow2 e)).

(** [statistics.mean(l)] of a list of [int] the caller has checked to be
    non-empty: the exact quotient as an [int] when the length divides the
    sum, otherwise the quotient as a [float]. *)
Definition mean (l : list Z) : Q :=
  let total := sum l in
  let n := Z.of_nat (length l) in
  if (total mod n =? 0)%Z then inject_Z (total / n)
  else binary64 (Qmake total (Pos.of_nat (length l))).

(** [round(x, 2)]: an [int] is returned as it is, and so is a [float] with an
    integer value; any other [float] is replaced by the [float] nearest to
    its value rounded to two decimals, ties to the even last digit. *)
Definition round2 (x : Q) : Q :=
  let n := Qnum x in
  let d := Zpos (Qden x) in
  if (n mod d =? 0)%Z then inject_Z (n / d)
  else binary64 (Qmake (round_half_even (100 * n) d) 100).

Record FileMetrics : Type := mkFileMetrics {
  filename : text;
  lines_of_code : Z;
  lines_of_comments : Z;
  blank_lines : Z;
  cyclomatic_complexity : Z;
  functions_count : Z;
  max_function_complexity : Z;
  average_function_complexity : Q;
  nested_depth : Z
}.

Record ProjectMetrics : Type := mkProjectMetrics {
  total_files : Z;
  total_loc : Z;
  total_comments : Z;
  total_blank_lines : Z;
  average_complexity : Q;
  max_complexity : Z;
  total_functions : Z;
  files_metrics : list FileMetrics
}.

(** [os.path.basename]: what follows the last slash. *)
Fixpoint basename_aux (acc t : text) : text :=
  match t with
  | [] => acc
  | c :: tl => if Ascii.eqb c "/" then basename_aux tl tl else basename_aux acc tl
  end.

Definition basename (path : text) : text := basename_aux path path.

(** [analyze_file] on a path and the outcome of reading it: [None] when
    [open] or [read] raises.  [count_lines] reads the same file again. *)
Definition analyze_file (filepath : text) (file : option text) : FileMetrics :=
  match file with
  | None => mkFileMetrics (basename filepath) 0 0 0 0 0 0 0 0
  | Some content =>
      let '(loc, comments, blank) := count_lines file in
      let file_complexity := calculate_cyclomatic_complexity content in
      let functions := find_functions content in
      let nesting_depth := calculate_nesting_depth content in
      let function_complexities := map (fun f => snd (fst f)) functions in
      let max_func_complexity :=
        match functions with [] => 0%Z | _ :: _ => max_of function_complexities end in
      let avg_func_complexity :=
        match functions with [] => 0%Q | _ :: _ => mean function_complexities end in
      mkFileMetrics (basename filepath) loc comments blank file_complexity
                    (Z.of_nat (length functions)) max_func_complexity
                    (round2 avg_func_complexity) nesting_depth
  end.

(** [complexities] of [analyze_project]: the complexities that are [> 0]. *)
Definition complexities (fms : list FileMetrics) : list Z :=
  map cyclomatic_complexity
      (filter (fun fm => (0 <? cyclomatic_complexity fm)%Z) fms).

(** [analyze_project] from the discovered files on: each path with the outcome
    of reading it.  Discovery itself is the caller's. *)
Definition analyze_project (files_to_analyze : list (text * option text))
  : ProjectMetrics :=
  match files_to_analyze with
  | [] => mkProjectMetrics 0 0 0 0 0 0 0 []
  | _ :: _ =>
      let files_metrics :=
        map (fun f => analyze_file (fst f) (snd f)) files_to_analyze in
      let total_loc := sum (map lines_of_code files_metrics) in
      let total_comments := sum (map lines_of_comments files_metrics) in
      let total_blank := sum (map blank_lines files_metrics) in
      let total_functions := sum (map functions_count files_metrics) in
      let complexities := complexities files_metrics in
      let avg_complexity :=
        match complexities with [] => 0%Q | _ :: _ => mean complexities end in
      let max_complexity :=
        match complexities with [] => 0%Z | _ :: _ => max_of complexities end in
      mkProjectMetrics (Z.of_nat (length files_metrics)) total_loc
                       total_comments total_blank (round2 avg_complexity)
                       max_complexity total_functions files_metrics
  end.

(** ** The reports: [generate_html_report], [print_report] and [main]

    The decisions of the three functions are modelled; the text they build
    around them (the HTML template, the console lines) is not. *)

(** [sum(1 for fm in fms if cond(fm))] *)
Definition count_if (cond : FileMetrics -> bool) (fms : list FileMetrics) : Z :=
  sum (map (fun _ => 1%Z) (filter cond fms)).

(** The three counts of the chart of [generate_html_report]. *)
Definition low_complexity (metrics : ProjectMetrics) : Z :=
  count_if (fun fm => (cyclomatic_complexity fm <=? 10)%Z) (files_metrics metrics).

Definition medium_complexity (metrics : ProjectMetrics) : Z :=
  count_if (fun fm => (10 <? cyclomatic_complexity fm)%Z
                      && (cyclomatic_complexity fm <=? 20)%Z)
           (files_metrics metrics).

Definition high_complexity (metrics : ProjectMetrics) : Z :=
  count_if (fun fm => (20 <? cyclomatic_complexity fm)%Z) (files_metrics metrics).

(** The three levels: [success] / [warning] / [danger] in the HTML report,
    green / yellow / red in the console report. *)
Inductive level : Type := Success | Warning | Danger.

(** [overall_status] of [generate_html_report], [complexity_level] of
    [print_report]. *)
Definition overall_status (metrics : ProjectMetrics) : level :=
  if (max_complexity metrics <=? 10)%Z then Success
  else if (max_complexity metrics <=? 20)%Z then Warning
  else Danger.

(** [row_class] / [badge_class] of [generate_html_report],
    [complexity_indicator] of [print_report]. *)
Definition row_class (fm : FileMetrics) : level :=
  if (20 <? cyclomatic_complexity fm)%Z then Danger
  else if (10 <? cyclomatic_complexity fm)%Z then Warning
  else Success.

(** [sorted(fms, key=lambda x: x.cyclomatic_complexity, reverse=True)]: the
    sort is stable, so a record goes before the first one that is not more
    complex than it. *)
Fixpoint insert_by_complexity (fm : FileMetrics) (sorted : list FileMetrics)
  : list FileMetrics :=
  match sorted with
  | [] => [fm]
  | x :: rest =>
      if (cyclomatic_complexity fm <? cyclomatic_complexity x)%Z
      then x :: insert_by_complexity fm rest
      else fm :: sorted
  end.

Definition sorted_files (metrics : ProjectMetrics) : list FileMetrics :=
  fold_right insert_by_complexity [] (files_metrics metrics).

(** The rows of the table of [generate_html_report], which are the entries
    that [print_report] prints: a row for each sorted record with a
    complexity above 0, with its level. *)
Definition files_rows (metrics : ProjectMetrics) : list (level * FileMetrics) :=
  map (fun fm => (row_class fm, fm))
      (filter (fun fm => (0 <? cyclomatic_complexity fm)%Z) (sorted_files metrics)).

(** [high_complexity_files] of [main], for [args.threshold]. *)
Definition high_complexity_files (threshold : Z) (metrics : ProjectMetrics)
  : list FileMetrics :=
  filter (fun fm => (threshold <? cyclomatic_complexity fm)%Z)
         (files_metrics metrics).

(** * Checks on concrete inputs *)

Definition add_line : text := T "int add(int a, int b) { return a + b; }".
Definition nested_if : text := T "if (x) { if (y) { z(); } }".

(** * Vocabulary of the statements *)

(** How many lines the classifier has counted so far. *)
Definition counted (st : line_counts) : Z := (loc st + comments st + blank st)%Z.

(** What one line does to the counters. *)
Inductive line_kind : Type := CodeLine | CommentLine | BlankLine.

Definition bump (k : line_kind) (st st' : line_counts) : Prop :=
  match k with
  | CodeLine =>
      loc st' = (loc st + 1)%Z /\ comments st' = comments st /\ blank st' = blank st
  | CommentLine =>
      loc st' = loc st /\ comments st' = (comments st + 1)%Z /\ blank st' = blank st
  | BlankLine =>
      loc st' = loc st /\ comments st' = comments st /\ blank st' = (blank st + 1)%Z
  end.

(** The record a file that cannot be read gets. *)
Definition zeroed (filepath : text) : FileMetrics :=
  mkFileMetrics (basename filepath) 0 0 0 0 0 0 0 0.

(** The contents of the files that could be read, in order. *)
Definition readable_contents (files : list (text * option text)) : list text :=
  flat_map (fun f => match snd f with Some c => [c] | None => [] end) files.

(** The state of the classifier inside a block comment that started on an
    earlier line. *)
Definition inside_comment : line_counts := LineCounts 0 1 0 true.

(** [t.find(p)]: the first index at which [p] occurs in [t]. *)
Fixpoint find (p t : text) : option nat :=
  if startswith p t then Some 0
  else match t with
       | [] => None
       | _ :: tl => option_map S (find p tl)
       end.

(** The character before the position that follows the literal [s]. *)
Fixpoint lit_prev (s : string) (p : option ascii) : option ascii :=
  match s with
  | EmptyString => p
  | String c s' => lit_prev s' (Some c)
  end.

(** The [while True] loop of [remove_comments_and_strings] as a relation
    between the text it starts from, the way it ends and the text it ends
    with. *)
Inductive loop_exit : Type := NoOpener | Unterminated.

Inductive multi_comment_run : text -> loop_exit -> text -> Prop :=
| run_no_opener content :
    re_search multi_comment_start content = None ->
    multi_comment_run content NoOpener content
| run_unterminated content m :
    re_search multi_comment_start content = Some m ->
    re_search multi_comment_end (skipn (m_start m) content) = None ->
    multi_comment_run content Unterminated (firstn (m_start m) content)
| run_removed content m end_match how result :
    re_search multi_comment_start content = Some m ->
    re_search multi_comment_end (skipn (m_start m) content) = Some end_match ->
    multi_comment_run
      (firstn (m_start m) content
       ++ skipn (m_start m + m_end end_match) content) how result ->
    multi_comment_run content how result.

(** What follows the quote that closes a literal whose opening quote [q] has
    just been read: a backslash takes the next character with it, unless that
    is a line end; [None] when the literal is not closed. *)
Fixpoint closing (q : ascii) (t : text) : option text :=
  match t with
  | [] => None
  | c :: tl =>
      if Ascii.eqb c q then Some tl
      else if Ascii.eqb c BS then
        match tl with
        | [] => None
        | d :: tl' => if Ascii.eqb d NL then None else closing q tl'
        end
      else closing q tl
  end.

(** What follows a literal at the start of [t], if one starts there. *)
Definition after_quoted (q : ascii) (t : text) : option text :=
  match t with
  | [] => None
  | c :: tl => if Ascii.eqb q c then closing q tl else None
  end.

(** The text from the next line end on. *)
Fixpoint drop_line (t : text) : text :=
  match t with
  | [] => []
  | c :: tl => if Ascii.eqb c NL then t else drop_line tl
  end.

(** What follows a [//] comment at the start of [t], if one starts there. *)
Definition after_single_comment (t : text) : option text :=
  if startswith (T "//") t then Some (drop_line (skipn 2 t)) else None.

(** [c in t] for a character. *)
Definition mem (c : ascii) (t : text) : bool := existsb (Ascii.eqb c) t.

(** Reading a text for the quote character [q]: [QE] when the quotes read so
    far pair up two by two, each pair adjacent; [QH] right after the first
    quote of a pair; [QL] once a quote was followed by something else, after
    which no quote may come. *)
Inductive qstate : Type := QE | QH | QL.

Definition qnext (q : ascii) (st : qstate) (c : ascii) : option qstate :=
  if Ascii.eqb c q then
    match st with QE => Some QH | QH => Some QE | QL => None end
  else
    match st with QE => Some QE | QH => Some QL | QL => Some QL end.

Fixpoint qrun (q : ascii) (st : qstate) (t : text) : option qstate :=
  match t with
  | [] => Some st
  | c :: tl =>
      match qnext q st c with
      | Some st' => qrun q st' tl
      | None => None
      end
  end.

Definition qok (q : ascii) (st : qstate) (t : text) : bool :=
  is_some (qrun q st t).

(** The quotes [q] of [t] are the empty literals [qq], but for one last
    quote that nothing closes. *)
Definition paired (q : ascii) (t : text) : bool := qok q QE t.

(** The text [//]. *)
Definition SLASHES : text := T "//".

(** How a piece [chunk] ends against the text [u] that follows it: not on a
    quote [q] that the next character pairs with. *)
Definition ends_clear (q : ascii) (chunk u : text) : Prop :=
  (exists init l, chunk = init ++ [l] /\ l <> q)
  \/ u = []
  \/ (exists c u', u = c :: u' /\ c <> q).

(** The number of lines of a record of [find_functions]. *)
Definition record_lines (r : function_record) : Z := snd r.

(** The complexity of a record of [find_functions]. *)
Definition record_complexity (r : function_record) : Z := snd (fst r).

(** The name of a record of [find_functions]. *)
Definition record_name (r : function_record) : text := fst (fst r).

(** What the loop of [find_functions] keeps true after [n] lines: a record
    has a complexity of 1 or more and 2 lines or more; the lines of the
    records and of the open function are among the lines read; the buffer of
    an open function holds its header line, and is empty otherwise. *)
Definition find_invariant (st : find_state) (n : nat) : Prop :=
  (forall r, In r (functions st) ->
             (1 <= record_complexity r)%Z /\ (2 <= record_lines r)%Z)
  /\ (sum (map record_lines (functions st))
       + Z.of_nat (length (function_content st)) <= Z.of_nat n)%Z
  /\ match current_function st with
     | Some _ => 1 <= length (function_content st)
     | None => function_content st = []
     end.

(** A pattern without capturing group. *)
Fixpoint group_free (r : regex) : bool :=
  match r with
  | Seq a b | Alt a b => group_free a && group_free b
  | Star a => group_free a
  | Group _ => false
  | _ => true
  end.

(** A pattern that only matches where the character [c] is still to come. *)
Definition needs (c : ascii) (r : regex) : Prop :=
  forall s s', In s' (matches r s) -> mem c (rest s) = true.

(** A name as [\w+] takes it: one word character or more. *)
Definition is_identifier (name : text) : bool :=
  match name with
  | [] => false
  | _ :: _ => forallb is_word name
  end.

(** The names that the loop of [find_functions] holds are identifiers. *)
Definition names_invariant (st : find_state) : Prop :=
  (forall r, In r (functions st) -> is_identifier (record_name r) = true)
  /\ (forall name, current_function st = Some name ->
                   is_identifier name = true).

(** A character that starts neither a literal nor a comment. *)
Definition plain_char (c : ascii) : bool :=
  negb (Ascii.eqb c DQ || Ascii.eqb c SQ || Ascii.eqb c "/").

(** [not line], for a line. *)
Definition is_empty (t : text) : bool :=
  match t with [] => true | _ :: _ => false end.

(** A raw line that is empty once trimmed. *)
Definition line_is_blank (raw : text) : bool := is_empty (strip raw).

(** A raw line that, once trimmed, starts with [//]. *)
Definition line_is_line_comment (raw : text) : bool :=
  startswith SLASHES (strip raw).

(** A raw line that is neither. *)
Definition line_is_plain_code (raw : text) : bool :=
  negb (line_is_blank raw) && negb (line_is_line_comment raw).

(** How many of the lines satisfy [f]. *)
Definition how_many (f : text -> bool) (lines : list text) : Z :=
  Z.of_nat (length (filter f lines)).

(** The text after the two passes that replace the literals, before the
    comments are removed. *)
Definition remove_strings (content : text) : text :=
  re_sub (quoted SQ) [SQ; SQ] (re_sub (quoted DQ) [DQ; DQ] content).

(** [t.endswith(p)] *)
Definition endswith (p t : text) : bool := startswith (rev p) (rev t).

(** A trimmed line that is one block comment from its first character to its
    last: it starts with the opening marker, what follows that marker ends
    with the closing marker, and the line holds no line end. *)
Definition comment_only (line : text) : bool :=
  startswith OPEN line && endswith CLOSE (skipn 2 line) && negb (mem NL line).

(** Reading, for its double quotes, a text that the pass on double-quoted
    literals has returned.  [BE]: outside a literal; [BH]: right after a
    quote; [BU]: in a literal that was left because nothing closes it, where
    a quote can only come after a backslash; [BB]: right after a backslash
    of such a literal, where a line end ends the attempt to close it. *)
Inductive bstate : Type := BE | BH | BU | BB.

Definition bnext (st : bstate) (c : ascii) : option bstate :=
  match st with
  | BE => if Ascii.eqb c DQ then Some BH else Some BE
  | BH => if Ascii.eqb c DQ then Some BE
          else if Ascii.eqb c BS then Some BB else Some BU
  | BU => if Ascii.eqb c DQ then None
          else if Ascii.eqb c BS then Some BB else Some BU
  | BB => if Ascii.eqb c NL then Some BE else Some BU
  end.

Fixpoint brun (st : bstate) (t : text) : option bstate :=
  match t with
  | [] => Some st
  | c :: tl =>
      match bnext st c with
      | Some st' => brun st' tl
      | None => None
      end
  end.

Definition bok (st : bstate) (t : text) : bool := is_some (brun st t).

(** * Properties *)

(** ** Text utilities *)

Lemma startswith_app_spaces (p u ws : text) :
  Forall (fun c => is_space c = false) p ->
  Forall (fun c => is_space c = true) ws ->
  startswith p (u ++ ws) = startswith p u.
Proof.
  revert p; induction u as [|b u IH]; intros p Hp Hws.
  - destruct p as [|a p]; [destruct ws; reflexivity|].
    destruct ws as [|w ws]; [reflexivity|]; simpl.
    inversion Hp; inversion Hws; subst.
    destruct (Ascii.eqb_spec a w); [congruence|reflexivity].
  - destruct p as [|a p]; [reflexivity|]; simpl.
    inversion Hp; subst. rewrite IH by assumption. reflexivity.
Qed.

Lemma contains_spaces (p ws : text) :
  p <> [] ->
  Forall (fun c => is_space c = false) p ->
  Forall (fun c => is_space c = true) ws ->
  contains p ws = false.
Proof.
  intros Hne Hp Hws; induction ws as [|w ws IH].
  - destruct p; [congruence|reflexivity].
  - destruct p as [|a p]; [congruence|].
    inversion Hp; inversion Hws; subst.
    cbn [contains startswith].
    destruct (Ascii.eqb_spec a w); [congruence|]. simpl. apply IH; assumption.
Qed.

Lemma contains_app_spaces (p u ws : text) :
  p <> [] ->
  Forall (fun c => is_space c = false) p ->
  Forall (fun c => is_space c = true) ws ->
  contains p (u ++ ws) = contains p u.
Proof.
  intros Hne Hp Hws; induction u as [|b u IH].
  - simpl app. rewrite contains_spaces by assumption.
    destruct p; [congruence|reflexivity].
  - change ((b :: u) ++ ws) with (b :: (u ++ ws)).
    cbn [contains]. rewrite IH.
    change (b :: (u ++ ws)) with ((b :: u) ++ ws).
    rewrite startswith_app_spaces by assumption. reflexivity.
Qed.

Lemma contains_lstrip (p t : text) :
  p <> [] ->
  Forall (fun c => is_space c = false) p ->
  contains p (lstrip t) = contains p t.
Proof.
  intros Hne Hp; induction t as [|c t IH]; [reflexivity|].
  cbn [lstrip]. destruct (is_space c) eqn:Hc; [|reflexivity].
  rewrite IH. destruct p as [|a p]; [congruence|].
  cbn [contains startswith]. inversion Hp; subst.
  destruct (Ascii.eqb_spec a c); [congruence|reflexivity].
Qed.

Lemma lstrip_split (t : text) :
  exists ws, t = ws ++ lstrip t /\ Forall (fun c => is_space c = true) ws.
Proof.
  induction t as [|c t [ws [E F]]].
  - exists []; split; [reflexivity|constructor].
  - cbn [lstrip]. destruct (is_space c) eqn:Hc.
    + exists (c :: ws); split; [simpl; congruence|constructor; assumption].
    + exists []; split; [reflexivity|constructor].
Qed.

Lemma rstrip_split (t : text) :
  exists ws, t = rstrip t ++ ws /\ Forall (fun c => is_space c = true) ws.
Proof.
  unfold rstrip. destruct (lstrip_split (rev t)) as [ws [E F]].
  exists (rev ws); split.
  - rewrite <- rev_app_distr, <- E, rev_involutive. reflexivity.
  - apply Forall_rev; assumption.
Qed.

Lemma contains_rstrip (p t : text) :
  p <> [] ->
  Forall (fun c => is_space c = false) p ->
  contains p (rstrip t) = contains p t.
Proof.
  intros Hne Hp. destruct (rstrip_split t) as [ws [E F]].
  rewrite E at 2. rewrite contains_app_spaces by assumption. reflexivity.
Qed.

(** Trimming a line neither removes nor creates a marker made of characters
    that are not white space. *)
Lemma contains_strip (p t : text) :
  p <> [] ->
  Forall (fun c => is_space c = false) p ->
  contains p (strip t) = contains p t.
Proof.
  intros Hne Hp. unfold strip.
  rewrite contains_rstrip, contains_lstrip by assumption. reflexivity.
Qed.

Lemma contains_strip_OPEN (t : text) : contains OPEN (strip t) = contains OPEN t.
Proof.
  apply contains_strip; [discriminate|repeat constructor].
Qed.

Lemma contains_strip_CLOSE (t : text) : contains CLOSE (strip t) = contains CLOSE t.
Proof.
  apply contains_strip; [discriminate|repeat constructor].
Qed.

Lemma contains_nonempty (p t : text) : p <> [] -> contains p t = true -> t <> [].
Proof.
  intros Hne H E; subst t. destruct p; [congruence|discriminate].
Qed.

(** ** The Line Classifier *)

Lemma count_line_bumps_one (st : line_counts) (raw : text) :
  exists k, bump k st (count_line st raw).
Proof.
  destruct st as [l c b f]; unfold count_line.
  destruct (strip raw) as [|x line]; [exists BlankLine; simpl; auto|].
  repeat match goal with
         | |- context [if ?e then _ else _] => destruct e
         end;
    ((exists CodeLine; simpl; now auto) || (exists CommentLine; simpl; now auto)).
Qed.

Lemma count_line_counted (st : line_counts) (raw : text) :
  counted (count_line st raw) = (counted st + 1)%Z.
Proof.
  destruct (count_line_bumps_one st raw) as [[| |] (H1 & H2 & H3)];
    unfold counted; rewrite H1, H2, H3; lia.
Qed.

Lemma fold_count_line_counted (lines : list text) (st : line_counts) :
  counted (fold_left count_line lines st)
  = (counted st + Z.of_nat (length lines))%Z.
Proof.
  revert st; induction lines as [|raw lines IH]; intros st; simpl fold_left.
  - simpl; lia.
  - rewrite IH, count_line_counted. simpl length. lia.
Qed.

(** C2. For a file that can be read, the three counts of [count_lines] add up
    to the number of physical lines, and each line adds one to exactly one of
    the three counters. *)
Theorem count_lines_partition (content : text) :
  (let '(l, c, b) := count_lines (Some content) in
   (l + c + b)%Z = Z.of_nat (length (readlines content)))
  /\ (forall st raw, exists k, bump k st (count_line st raw)).
Proof.
  split; [|apply count_line_bumps_one].
  unfold count_lines.
  pose proof (fold_count_line_counted (readlines content) (LineCounts 0 0 0 false)) as H.
  unfold counted in H; simpl in H. exact H.
Qed.

(** C3, as stated, fails: inside a block comment a blank line is counted as
    blank, and a line with both markers and code around them as code; neither
    is counted as a comment. *)
Lemma inside_comment_not_always_comment :
  in_multiline_comment inside_comment = true
  /\ count_line inside_comment [NL] = LineCounts 0 1 1 true
  /\ count_line inside_comment (T "x /* y */ z") = LineCounts 1 1 0 true
  /\ count_lines (Some (T "/* a" ++ [NL; NL] ++ T "*/" ++ [NL])) = (0, 2, 1)%Z.
Proof. vm_compute. repeat split. Qed.

(** C9. A line that holds the closing marker and not the opening one is
    counted as a comment and clears the flag, whatever the flag was. *)
Theorem closing_marker_line_is_comment (st : line_counts) (raw : text) :
  contains CLOSE raw = true ->
  contains OPEN raw = false ->
  strip raw <> []
  /\ count_line st raw = LineCounts (loc st) (comments st + 1) (blank st) false.
Proof.
  intros Hc Ho.
  assert (Hne : strip raw <> []).
  { apply (@contains_nonempty CLOSE); [discriminate|].
    rewrite contains_strip_CLOSE; assumption. }
  split; [assumption|].
  destruct st as [l c b f]. unfold count_line.
  rewrite contains_strip_OPEN, contains_strip_CLOSE, Hc, Ho.
  destruct (strip raw); [congruence|reflexivity].
Qed.

Lemma closing_marker_line_is_comment_witness :
  let raw := T "x = a */ b;" in
  contains CLOSE raw = true
  /\ contains OPEN raw = false
  /\ strip raw <> []
  /\ count_line (LineCounts 3 0 0 false) raw = LineCounts 3 1 0 false.
Proof.
  intros raw.
  assert (H1 : contains CLOSE raw = true) by reflexivity.
  assert (H2 : contains OPEN raw = false) by reflexivity.
  split; [assumption|split; [assumption|]].
  exact (closing_marker_line_is_comment (LineCounts 3 0 0 false) raw H1 H2).
Defined.

(** ** The aggregators *)

Lemma fold_left_findall_ge (content : text) (ps : list regex) (acc : Z) :
  (acc <= fold_left
            (fun complexity pattern =>
               complexity + Z.of_nat (length (re_findall pattern content)))
            ps acc)%Z.
Proof.
  revert acc; induction ps as [|p ps IH]; intros acc; simpl; [lia|].
  etransitivity; [|apply IH]. lia.
Qed.

(** The base path: whatever the text, a complexity is at least 1. *)
Lemma calculate_cyclomatic_complexity_ge_1 (content : text) :
  (1 <= calculate_cyclomatic_complexity content)%Z.
Proof. apply fold_left_findall_ge. Qed.

Lemma analyze_file_complexity_some (filepath content : text) :
  cyclomatic_complexity (analyze_file filepath (Some content))
  = calculate_cyclomatic_complexity content.
Proof.
  unfold analyze_file. destruct (count_lines (Some content)) as [[l c] b].
  reflexivity.
Qed.

Lemma analyze_file_none (filepath : text) :
  analyze_file filepath None = zeroed filepath.
Proof. reflexivity. Qed.

Lemma files_metrics_analyze_project (files : list (text * option text)) :
  files_metrics (analyze_project files)
  = map (fun f => analyze_file (fst f) (snd f)) files.
Proof. destruct files; reflexivity. Qed.

Lemma complexities_readable (files : list (text * option text)) :
  complexities (map (fun f => analyze_file (fst f) (snd f)) files)
  = map calculate_cyclomatic_complexity (readable_contents files).
Proof.
  unfold complexities.
  induction files as [|[path [content|]] files IH]; [reflexivity| |].
  - cbn [map filter readable_contents flat_map fst snd app].
    rewrite analyze_file_complexity_some.
    pose proof (calculate_cyclomatic_complexity_ge_1 content) as H.
    destruct (Z.ltb_spec 0 (calculate_cyclomatic_complexity content)); [|lia].
    cbn [map]. rewrite analyze_file_complexity_some.
    f_equal. exact IH.
  - cbn [map filter readable_contents flat_map fst snd app].
    exact IH.
Qed.



(** C4, as stated, fails: a file that is empty but can be read has
    complexity 1, so it is part of the distribution. *)
Lemma empty_file_in_distribution :
  let pm := analyze_project [(T "empty.ino", Some [])] in
  map cyclomatic_complexity (files_metrics pm) = [1%Z]
  /\ complexities (files_metrics pm) = [1%Z]
  /\ max_complexity pm = 1%Z
  /\ average_complexity pm = Qmake 1 1.
Proof. vm_compute. repeat split. Qed.

(** The mean and its rounding on small lists: an exact quotient stays an
    integer; 3/2 is a [float] and two decimals keep it; 4/3 becomes the
    [float] nearest to 1.33; 1.125 and 1.375, half-way between two
    hundredths, go to the even ones, 1.12 and 1.38. *)
Lemma round2_mean_examples :
  round2 (mean [2; 2]%Z) = Qmake 2 1
  /\ round2 (mean [1; 2]%Z) = Qmake 3 2
  /\ round2 (mean [1; 1; 2]%Z) = binary64 (Qmake 133 100)
  /\ round2 (mean [1; 1; 1; 1; 1; 1; 1; 2]%Z) = binary64 (Qmake 112 100)
  /\ round2 (mean [1; 1; 1; 1; 1; 1; 1; 4]%Z) = binary64 (Qmake 138 100)
  /\ binary64 (Qmake 133 100) = Qmake 748723438050345 562949953421312.
Proof. vm_compute. repeat split. Qed.

(** Three functions of complexities 1, 1 and 2 in one file: the average the
    record holds is the [float] nearest to 1.33. *)
Lemma average_of_three_functions :
  let content :=
    T "int a() {" ++ [NL] ++ T "}" ++ [NL]
    ++ T "int b() {" ++ [NL] ++ T "}" ++ [NL]
    ++ T "int c() {" ++ [NL] ++ T "if (x) {}" ++ [NL] ++ T "}" ++ [NL] in
  let fm := analyze_file (T "src/main.cpp") (Some content) in
  find_functions content = [(T "a", 1, 2); (T "b", 1, 2); (T "c", 2, 3)]%Z
  /\ max_function_complexity fm = 2%Z
  /\ average_function_complexity fm = binary64 (Qmake 133 100).
Proof. vm_compute. repeat split. Qed.

(** Three files of complexities 1, 1 and 2: the average the project holds is
    the [float] nearest to 1.33, the mean rounded to two decimals. *)
Lemma average_of_three_files :
  let pm := analyze_project [(T "a.ino", Some []); (T "b.ino", Some []);
                             (T "c.ino", Some (T "if (x) {}"))] in
  complexities (files_metrics pm) = [1; 1; 2]%Z
  /\ average_complexity pm = binary64 (Qmake 133 100)
  /\ average_complexity pm = Qmake 748723438050345 562949953421312.
Proof. vm_compute. repeat split. Qed.

(** C4, amended. The average (the mean, rounded to two decimals) and the
    maximum are taken over the records with a complexity above 0; these are
    the records of exactly the files that could be read, the empty ones among
    them, since a file that can be read has complexity at least 1 and one
    that cannot has complexity 0.  Every analyzed file counts toward
    [total_files]. *)
Theorem complexity_distribution (files : list (text * option text)) :
  let pm := analyze_project files in
  let cs := map calculate_cyclomatic_complexity (readable_contents files) in
  total_files pm = Z.of_nat (length files)
  /\ complexities (files_metrics pm) = cs
  /\ average_complexity pm
     = round2 (match cs with [] => 0%Q | _ :: _ => mean cs end)
  /\ max_complexity pm = match cs with [] => 0%Z | _ :: _ => max_of cs end
  /\ (forall filepath content,
        0 < cyclomatic_complexity (analyze_file filepath (Some content)))%Z
  /\ (forall filepath,
        cyclomatic_complexity (analyze_file filepath None) = 0%Z).
Proof.
  intros pm cs. subst pm cs.
  rewrite files_metrics_analyze_project, complexities_readable.
  destruct files as [|f files].
  - repeat split. intros p c. rewrite analyze_file_complexity_some.
    pose proof (calculate_cyclomatic_complexity_ge_1 c); lia.
  - unfold analyze_project. cbn [total_files average_complexity max_complexity].
    rewrite complexities_readable, length_map.
    repeat split. intros p c. rewrite analyze_file_complexity_some.
    pose proof (calculate_cyclomatic_complexity_ge_1 c); lia.
Qed.

(** ** Two fixed inputs *)

(** C7. On [if (x) { if (y) { z(); } }] the complexity is 3 and the nesting
    depth 2; the two matches are those of the first pattern. *)
Theorem nested_if_complexity_and_depth :
  calculate_cyclomatic_complexity nested_if = 3%Z
  /\ calculate_nesting_depth nested_if = 2%Z
  /\ map (fun p => length (re_findall p (remove_comments_and_strings nested_if)))
         control_structures
     = [2; 0; 0; 0; 0; 0; 0; 0; 0].
Proof. vm_compute. repeat split. Qed.

(** C1: what [find_functions] does on the one-line function.  The header line
    opens the function and the loop goes on to the next line without looking
    at the brace count, so the function is closed by the line after it: with
    no such line nothing is recorded, and with a trailing line end the
    record has two lines. *)
Theorem one_line_function_not_closed_on_its_line :
  re_search function_pattern add_line = Some (ReMatch 0 23 (Some (T "add")))
  /\ net_braces add_line = 0%Z
  /\ find_functions add_line = []
  /\ find_functions (add_line ++ [NL]) = [(T "add", 1%Z, 2%Z)].
Proof. vm_compute. repeat split. Qed.

(** ** Searching for a literal *)

Lemma startswith_length (p t : text) :
  startswith p t = true -> length p <= length t.
Proof.
  revert t; induction p as [|a p IH]; intros [|b t] H; simpl in *;
    try lia; try discriminate.
  apply andb_prop in H as [_ H]. apply IH in H. lia.
Qed.

Lemma startswith_split (p t : text) :
  startswith p t = true -> t = p ++ skipn (length p) t.
Proof.
  revert t; induction p as [|a p IH]; intros [|b t] H; simpl in *;
    try reflexivity; try discriminate.
  apply andb_prop in H as [E H]. apply Ascii.eqb_eq in E; subst b.
  f_equal. apply IH; assumption.
Qed.

Lemma startswith_app (p t : text) : startswith p (p ++ t) = true.
Proof.
  induction p as [|a p IH]; [reflexivity|]; simpl.
  rewrite Ascii.eqb_refl; exact IH.
Qed.

Lemma startswith_app_l (p u v : text) :
  startswith p u = true -> startswith p (u ++ v) = true.
Proof.
  revert u; induction p as [|a p IH]; intros [|b u] H; simpl in *;
    try reflexivity; try discriminate.
  apply andb_prop in H as [E H]. rewrite E; simpl. apply IH; assumption.
Qed.

Lemma length_T (s : string) : length (T s) = String.length s.
Proof. induction s; simpl; congruence. Qed.

Lemma matches_lit (s : string) (st : mstate) :
  matches (lit s) st
  = if startswith (T s) (rest st)
    then [MState (lit_prev s (prev st)) (skipn (String.length s) (rest st)) (grp st)]
    else [].
Proof.
  revert st; induction s as [|c s IH]; intros [p t g].
  - reflexivity.
  - cbn [lit matches ch rest flat_map T list_ascii_of_string startswith
         lit_prev String.length skipn prev grp].
    destruct t as [|b t]; [reflexivity|].
    destruct (Ascii.eqb_spec c b) as [<-|]; [|reflexivity].
    cbn [flat_map]. rewrite IH, app_nil_r. reflexivity.
Qed.

Lemma first_match_lit (s : string) (p : option ascii) (t : text) :
  first_match (lit s) p t
  = if startswith (T s) t
    then Some (MState (lit_prev s p) (skipn (String.length s) t) None)
    else None.
Proof.
  unfold first_match. rewrite matches_lit. cbn [rest prev grp].
  destruct (startswith (T s) t); reflexivity.
Qed.

Lemma search_from_lit (s : string) (p : option ascii) (pos : nat) (t : text) :
  search_from (lit s) p pos t
  = option_map (fun i => ReMatch (pos + i) (pos + i + String.length s) None)
               (find (T s) t).
Proof.
  assert (Hit : forall (t : text) (p : option ascii) (pos : nat),
             startswith (T s) t = true ->
             Some (ReMatch pos
                     (pos + taken t (MState (lit_prev s p)
                                            (skipn (String.length s) t) None))
                     None)
             = Some (ReMatch (pos + 0) (pos + 0 + String.length s) None)).
  { intros t0 p0 pos0 E. apply startswith_length in E. rewrite length_T in E.
    unfold taken; cbn [rest]. rewrite length_skipn, !Nat.add_0_r.
    replace (length t0 - (length t0 - String.length s)) with (String.length s)
      by lia.
    reflexivity. }
  revert p pos; induction t as [|c t IH]; intros p pos.
  - cbn [search_from find]. rewrite first_match_lit.
    destruct (startswith (T s) []) eqn:E; [|reflexivity].
    cbn [option_map grp]. apply Hit; assumption.
  - cbn [search_from find]. rewrite first_match_lit.
    destruct (startswith (T s) (c :: t)) eqn:E.
    + cbn [option_map grp]. apply Hit; assumption.
    + rewrite IH. destruct (find (T s) t) as [n|]; cbn [option_map]; [|reflexivity].
      replace (S pos + n) with (pos + S n) by lia. reflexivity.
Qed.

Lemma re_search_lit (s : string) (t : text) :
  re_search (lit s) t
  = option_map (fun i => ReMatch i (i + String.length s) None) (find (T s) t).
Proof. unfold re_search. rewrite search_from_lit. reflexivity. Qed.

Lemma find_none_contains (p t : text) :
  find p t = None -> contains p t = false.
Proof.
  induction t as [|c t IH]; cbn [find contains]; intros H.
  - destruct (startswith p []); [discriminate|reflexivity].
  - destruct (startswith p (c :: t)); [discriminate|].
    destruct (find p t); [discriminate|]. simpl. apply IH; reflexivity.
Qed.

Lemma find_some_bound (p t : text) (i : nat) :
  find p t = Some i -> i + length p <= length t.
Proof.
  revert i; induction t as [|c t IH]; intros i; cbn [find].
  - destruct (startswith p []) eqn:E; [|discriminate].
    intros [= <-]. apply startswith_length in E. lia.
  - destruct (startswith p (c :: t)) eqn:E.
    + intros [= <-]. apply startswith_length in E. lia.
    + destruct (find p t) as [j|]; [|discriminate].
      intros [= <-]. specialize (IH j eq_refl). simpl. lia.
Qed.

Lemma find_some_startswith (p t : text) (i : nat) :
  find p t = Some i -> startswith p (skipn i t) = true.
Proof.
  revert i; induction t as [|c t IH]; intros i; cbn [find].
  - destruct (startswith p []) eqn:E; [|discriminate]. intros [= <-]. exact E.
  - destruct (startswith p (c :: t)) eqn:E.
    + intros [= <-]. exact E.
    + destruct (find p t) as [j|]; [|discriminate].
      intros [= <-]. apply IH; reflexivity.
Qed.

(** Nothing occurs in the text before the first occurrence. *)
Lemma find_some_prefix_clean (p t : text) (i : nat) :
  p <> [] -> find p t = Some i -> contains p (firstn i t) = false.
Proof.
  intros Hne. revert i; induction t as [|c t IH]; intros i; cbn [find].
  - intros _. rewrite firstn_nil. destruct p; [congruence|reflexivity].
  - destruct (startswith p (c :: t)) eqn:E.
    + intros [= <-]. destruct p; [congruence|reflexivity].
    + destruct (find p t) as [j|]; [|discriminate].
      intros [= <-]. cbn [firstn contains]. rewrite (IH j eq_refl).
      destruct (startswith p (c :: firstn j t)) eqn:E'; [|reflexivity].
      apply (startswith_app_l _ _ (skipn j t)) in E'.
      change ((c :: firstn j t) ++ skipn j t) with (c :: (firstn j t ++ skipn j t)) in E'.
      rewrite firstn_skipn in E'. congruence.
Qed.

(** ** The block-comment loop *)

Lemma multi_comment_step_find (t : text) :
  multi_comment_step t
  = match find OPEN t with
    | None => Break t
    | Some i =>
        match find CLOSE (skipn i t) with
        | Some j => Continue (firstn i t ++ skipn (i + (j + 2)) t)
        | None => Break (firstn i t)
        end
    end.
Proof.
  unfold multi_comment_step, multi_comment_start, multi_comment_end.
  rewrite re_search_lit. change (T "/*") with OPEN.
  destruct (find OPEN t) as [i|]; cbn [option_map m_start]; [|reflexivity].
  rewrite re_search_lit. change (T "*/") with CLOSE.
  destruct (find CLOSE (skipn i t)); reflexivity.
Qed.

(** A round that does not leave the loop makes the text shorter. *)
Lemma multi_comment_step_shortens (t t' : text) :
  multi_comment_step t = Continue t' -> length t' < length t.
Proof.
  rewrite multi_comment_step_find.
  destruct (find OPEN t) as [i|] eqn:Ei; [|discriminate].
  destruct (find CLOSE (skipn i t)) as [j|] eqn:Ej; [|discriminate].
  intros [= <-]. apply find_some_bound in Ei, Ej.
  rewrite length_skipn in Ej. change (length OPEN) with 2 in Ei.
  change (length CLOSE) with 2 in Ej.
  rewrite length_app, length_firstn, length_skipn. lia.
Qed.

(** Either way out of the loop leaves a text without opening marker. *)
Lemma multi_comment_step_break_clean (t r : text) :
  multi_comment_step t = Break r -> contains OPEN r = false.
Proof.
  rewrite multi_comment_step_find.
  destruct (find OPEN t) as [i|] eqn:Ei.
  - destruct (find CLOSE (skipn i t)); [discriminate|].
    intros [= <-]. apply find_some_prefix_clean; [discriminate|assumption].
  - intros [= <-]. apply find_none_contains; assumption.
Qed.

Lemma multi_comment_loop_total (fuel : nat) (t : text) :
  length t < fuel ->
  exists r, multi_comment_loop fuel t = Some r /\ contains OPEN r = false.
Proof.
  revert t; induction fuel as [|fuel IH]; intros t Hlen; [lia|].
  cbn [multi_comment_loop].
  destruct (multi_comment_step t) as [t'|r] eqn:E.
  - apply IH. apply multi_comment_step_shortens in E. lia.
  - exists r; split; [reflexivity|].
    apply multi_comment_step_break_clean with t; assumption.
Qed.

Lemma multi_comment_loop_more_fuel (fuel k : nat) (t r : text) :
  multi_comment_loop fuel t = Some r ->
  multi_comment_loop (fuel + k) t = Some r.
Proof.
  revert t; induction fuel as [|fuel IH]; intros t; [discriminate|].
  cbn [multi_comment_loop Nat.add].
  destruct (multi_comment_step t); [apply IH|trivial].
Qed.

Lemma remove_multi_comments_loop (t : text) (k : nat) :
  multi_comment_loop (S (length t) + k) t = Some (remove_multi_comments t).
Proof.
  destruct (multi_comment_loop_total (fuel := S (length t)) t) as [r [E _]]; [lia|].
  unfold remove_multi_comments. rewrite E.
  apply multi_comment_loop_more_fuel; assumption.
Qed.

Lemma remove_multi_comments_clean (t : text) :
  contains OPEN (remove_multi_comments t) = false.
Proof.
  destruct (multi_comment_loop_total (fuel := S (length t)) t) as [r [E H]]; [lia|].
  unfold remove_multi_comments. rewrite E. exact H.
Qed.

(** The loop as a function computes the loop as a relation. *)
Lemma multi_comment_run_loop (t r : text) (how : loop_exit) :
  multi_comment_run t how r ->
  forall fuel, length t < fuel -> multi_comment_loop fuel t = Some r.
Proof.
  induction 1 as [t H|t m H1 H2|t m em how r H1 H2 Hrun IH]; intros fuel Hlen;
    (destruct fuel as [|fuel]; [lia|]); cbn [multi_comment_loop];
    unfold multi_comment_step at 1.
  - rewrite H. reflexivity.
  - rewrite H1, H2. reflexivity.
  - rewrite H1, H2. apply IH.
    assert (E : multi_comment_step t
                = Continue (firstn (m_start m) t
                            ++ skipn (m_start m + m_end em) t))
      by (unfold multi_comment_step; rewrite H1, H2; reflexivity).
    apply multi_comment_step_shortens in E. lia.
Qed.

Lemma multi_comment_run_result (t r : text) (how : loop_exit) :
  multi_comment_run t how r -> remove_multi_comments t = r.
Proof.
  intros H. unfold remove_multi_comments.
  rewrite (multi_comment_run_loop H (fuel := S (length t))) by lia. reflexivity.
Qed.

(** C10. The block-comment loop ends: a round that does not leave the loop
    makes the text shorter, so [length t + 1] rounds, or any more, give the
    result; and the text returned holds no opening marker. *)
Theorem block_loop_terminates_clean (content : text) (k : nat) :
  let t := remove_strings_and_line_comments content in
  multi_comment_loop (S (length t) + k) t
  = Some (remove_comments_and_strings content)
  /\ contains OPEN (remove_comments_and_strings content) = false
  /\ (forall c c', multi_comment_step c = Continue c' -> length c' < length c).
Proof.
  intros t. split; [|split].
  - apply remove_multi_comments_loop.
  - apply remove_multi_comments_clean.
  - apply multi_comment_step_shortens.
Qed.

(** ** An opening marker that is never closed *)

Lemma contains_none_find (p t : text) :
  contains p t = false -> find p t = None.
Proof.
  induction t as [|c t IH]; cbn [find contains]; intros H.
  - apply orb_false_elim in H as [-> _]. reflexivity.
  - apply orb_false_elim in H as [-> H]. rewrite (IH H). reflexivity.
Qed.

Lemma startswith_app_long (p u v : text) :
  length p <= length u -> startswith p (u ++ v) = startswith p u.
Proof.
  revert u; induction p as [|a p IH]; intros [|b u] H; simpl in *;
    try reflexivity; try lia.
  rewrite IH by lia. reflexivity.
Qed.

(** The first occurrence in a text is the first occurrence in any text that
    starts with it. *)
Lemma find_app_l (p u v : text) (i : nat) :
  find p u = Some i -> find p (u ++ v) = Some i.
Proof.
  revert i; induction u as [|c u IH]; intros i; cbn [find].
  - destruct (startswith p []) eqn:E; [|discriminate]. intros [= <-].
    destruct p; [|discriminate]. destruct v; reflexivity.
  - destruct (startswith p (c :: u)) eqn:E.
    + intros [= <-]. change ((c :: u) ++ v) with (c :: (u ++ v)). cbn [find].
      change (c :: (u ++ v)) with ((c :: u) ++ v).
      rewrite startswith_app_l by assumption. reflexivity.
    + destruct (find p u) as [j|] eqn:Ej; [|discriminate]. intros [= <-].
      change ((c :: u) ++ v) with (c :: (u ++ v)). cbn [find].
      change (c :: (u ++ v)) with ((c :: u) ++ v).
      rewrite startswith_app_long, E.
      * rewrite (IH j eq_refl). reflexivity.
      * apply find_some_bound in Ej. simpl. lia.
Qed.

(** Behind a text without the marker, a marker of two different characters is
    found where it is put. *)
Lemma find_two_after_clean (a b : ascii) (u v : text) :
  a <> b -> find [a; b] u = None ->
  find [a; b] (u ++ a :: b :: v) = Some (length u).
Proof.
  intros Hab. induction u as [|c u IH]; intros H.
  - cbn. rewrite !Ascii.eqb_refl. reflexivity.
  - cbn [find] in H. destruct (startswith [a; b] (c :: u)) eqn:E; [discriminate|].
    destruct (find [a; b] u) eqn:Eu; [discriminate|].
    change ((c :: u) ++ a :: b :: v) with (c :: (u ++ a :: b :: v)).
    cbn [find]. rewrite (IH eq_refl). cbn [option_map length].
    destruct u as [|d u].
    + cbn. destruct (Ascii.eqb_spec b a); [congruence|].
      rewrite andb_false_r. reflexivity.
    + cbn in E |- *. rewrite E. reflexivity.
Qed.

Lemma re_search_start_find (t : text) :
  re_search multi_comment_start t
  = option_map (fun i => ReMatch i (i + 2) None) (find OPEN t).
Proof. unfold multi_comment_start. rewrite re_search_lit. reflexivity. Qed.

Lemma re_search_end_find (t : text) :
  re_search multi_comment_end t
  = option_map (fun i => ReMatch i (i + 2) None) (find CLOSE t).
Proof. unfold multi_comment_end. rewrite re_search_lit. reflexivity. Qed.

(** The loop on a text whose comments are all closed does the same rounds
    when an opening marker that is never closed follows the text, and then
    cuts at that marker. *)
Lemma multi_comment_run_then_unterminated (pre pre' : text) (how : loop_exit) :
  multi_comment_run pre how pre' ->
  how = NoOpener ->
  forall post, contains CLOSE (OPEN ++ post) = false ->
  multi_comment_run (pre ++ OPEN ++ post) Unterminated pre'.
Proof.
  induction 1 as [t H|t m H1 H2|t m em how r H1 H2 Hrun IH];
    intros Hhow post Hpost; [|discriminate|].
  - rewrite re_search_start_find in H.
    destruct (find OPEN t) eqn:E; [discriminate|].
    assert (F : find OPEN (t ++ OPEN ++ post) = Some (length t))
      by (apply (@find_two_after_clean "/" "*"); [discriminate|assumption]).
    pose (m := ReMatch (length t) (length t + 2) None).
    replace t with (firstn (m_start m) (t ++ OPEN ++ post)) at 2
      by (cbn [m m_start]; rewrite firstn_app, firstn_all, Nat.sub_diag;
          cbn [firstn]; apply app_nil_r).
    apply run_unterminated.
    + rewrite re_search_start_find, F. reflexivity.
    + cbn [m m_start]. rewrite skipn_app, skipn_all, Nat.sub_diag.
      cbn [skipn app]. rewrite re_search_end_find.
      rewrite (contains_none_find _ _ Hpost). reflexivity.
  - rewrite re_search_start_find in H1.
    destruct (find OPEN t) as [i|] eqn:Ei; [|discriminate].
    injection H1 as <-. cbn [m_start] in *.
    rewrite re_search_end_find in H2.
    destruct (find CLOSE (skipn i t)) as [j|] eqn:Ej; [|discriminate].
    injection H2 as <-. cbn [m_end] in *.
    pose proof (find_some_bound _ _ Ei) as Bi.
    pose proof (find_some_bound _ _ Ej) as Bj.
    rewrite length_skipn in Bj. change (length CLOSE) with 2 in Bj.
    apply run_removed with (m := ReMatch i (i + 2) None)
                           (end_match := ReMatch j (j + 2) None).
    + rewrite re_search_start_find, (find_app_l _ _ _ Ei). reflexivity.
    + cbn [m_start]. rewrite skipn_app.
      replace (i - length t) with 0 by lia. rewrite skipn_O.
      rewrite re_search_end_find, (find_app_l _ _ _ Ej). reflexivity.
    + cbn [m_start m_end]. rewrite firstn_app, skipn_app.
      replace (i - length t) with 0 by lia.
      replace (i + (j + 2) - length t) with 0 by lia.
      rewrite firstn_O, skipn_O, app_nil_r, app_assoc.
      apply IH; assumption.
Qed.

(** C6, as stated, fails in three ways.  An opening marker inside a [//]
    comment is gone before the loop runs, so the text after it is kept; of
    two opening markers that are never closed the text is cut at the first,
    not at the second; and in [/*/] the loop takes the last two characters
    for the closing marker, so nothing is cut. *)
Lemma unterminated_opener_not_always_cut :
  let in_line_comment := T "int a; // see /* here" ++ [NL] ++ T "int b;" ++ [NL] in
  let two_openers := T "a /* b /* c" in
  let overlapping := T "a /*/ b" in
  (remove_strings in_line_comment
   = T "int a; // see " ++ OPEN ++ T " here" ++ [NL] ++ T "int b;" ++ [NL]
   /\ contains CLOSE (remove_strings in_line_comment) = false
   /\ remove_comments_and_strings in_line_comment
      = T "int a; " ++ [NL] ++ T "int b;" ++ [NL]
   /\ remove_comments_and_strings in_line_comment <> T "int a; // see ")
  /\ (remove_strings two_openers = T "a /* b " ++ OPEN ++ T " c"
      /\ contains CLOSE (remove_strings two_openers) = false
      /\ remove_comments_and_strings two_openers = T "a "
      /\ remove_comments_and_strings two_openers <> T "a /* b ")
  /\ (remove_strings overlapping = T "a " ++ OPEN ++ T "/ b"
      /\ contains CLOSE (T "/ b") = false
      /\ remove_comments_and_strings overlapping = T "a  b"
      /\ remove_comments_and_strings overlapping <> T "a ").
Proof. vm_compute. repeat split; discriminate. Qed.

(** C6, amended. When the text, after the literals and the [//] comments are
    removed, is [pre ++ "/*" ++ post] with no closing marker from that
    opening marker on, and the comments before it are all closed, the
    stripper returns what it makes of [pre]: nothing from the marker on is
    kept.  When [pre] holds no comment this is [pre] itself, the text cut
    before the marker. *)
Theorem unterminated_comment_truncates (content pre post pre' : text) :
  remove_strings_and_line_comments content = pre ++ OPEN ++ post ->
  contains CLOSE (OPEN ++ post) = false ->
  multi_comment_run pre NoOpener pre' ->
  remove_comments_and_strings content = pre'
  /\ remove_multi_comments pre = pre'
  /\ (contains OPEN pre = false -> pre' = pre).
Proof.
  intros Hc Hpost Hrun. split; [|split].
  - unfold remove_comments_and_strings. rewrite Hc.
    apply multi_comment_run_result with Unterminated.
    apply multi_comment_run_then_unterminated with NoOpener; auto.
  - apply multi_comment_run_result with NoOpener; assumption.
  - intros Hclean. apply contains_none_find in Hclean.
    inversion Hrun as [t H| |t m em how r H1 H2 Hr]; subst; [reflexivity|].
    rewrite re_search_start_find, Hclean in H1. discriminate.
Qed.

Lemma unterminated_comment_truncates_witness :
  let content := T "int a; /* one */ int b;" ++ [NL] ++ T "int c; /* two" ++ [NL]
                 ++ T "int d;" ++ [NL] in
  let pre := T "int a; /* one */ int b;" ++ [NL] ++ T "int c; " in
  let post := T " two" ++ [NL] ++ T "int d;" ++ [NL] in
  let pre' := T "int a;  int b;" ++ [NL] ++ T "int c; " in
  remove_strings_and_line_comments content = pre ++ OPEN ++ post
  /\ contains CLOSE (OPEN ++ post) = false
  /\ multi_comment_run pre NoOpener pre'
  /\ remove_comments_and_strings content = pre'.
Proof.
  intros content pre post pre'.
  assert (H1 : remove_strings_and_line_comments content = pre ++ OPEN ++ post)
    by (vm_compute; reflexivity).
  assert (H2 : contains CLOSE (OPEN ++ post) = false) by (vm_compute; reflexivity).
  assert (H3 : multi_comment_run pre NoOpener pre').
  { apply run_removed with (m := ReMatch 7 9 None) (end_match := ReMatch 7 9 None);
      [vm_compute; reflexivity | vm_compute; reflexivity |].
    apply run_no_opener. vm_compute; reflexivity. }
  split; [exact H1|split; [exact H2|split; [exact H3|]]].
  exact (proj1 (@unterminated_comment_truncates content pre post pre' H1 H2 H3)).
Defined.

(** ** [re.sub] one match at a time *)

Section SubUnfold.

Variable r : regex.
Variable repl : text.

(** [M t]: the text after the best match of [r] at the start of [t]. *)
Variable M : text -> option text.

Hypothesis first_match_M :
  forall p t, option_map rest (first_match r p t) = M t.

Hypothesis M_suffix :
  forall t u, M t = Some u -> exists k, u = skipn (S k) t /\ S k <= length t.

Lemma sub_from_prev (p p' : option ascii) (k : nat) (t : text) :
  sub_from r repl p k t = sub_from r repl p' k t.
Proof.
  destruct k as [|k]; [|destruct t; reflexivity].
  pose proof (first_match_M p t) as H. pose proof (first_match_M p' t) as H'.
  destruct t as [|c tl]; cbn [sub_from];
    destruct (first_match r p _) as [s1|], (first_match r p' _) as [s2|];
    cbn [option_map] in H, H'; try congruence.
  assert (E : rest s1 = rest s2) by congruence.
  unfold taken. rewrite E. reflexivity.
Qed.

Lemma sub_from_skip (k : nat) (p : option ascii) (t : text) :
  k <= length t ->
  sub_from r repl p k t = sub_from r repl None 0 (skipn k t).
Proof.
  revert p t; induction k as [|k IH]; intros p t Hk.
  - apply sub_from_prev.
  - destruct t as [|c t]; [simpl in Hk; lia|].
    cbn [sub_from skipn]. apply IH. simpl in Hk; lia.
Qed.

Lemma M_nil : M [] = None.
Proof.
  destruct (M []) as [u|] eqn:E; [|reflexivity].
  destruct (M_suffix E) as [k [_ H]]. simpl in H; lia.
Qed.

Lemma re_sub_nil : re_sub r repl [] = [].
Proof.
  unfold re_sub; cbn [sub_from].
  pose proof (first_match_M None []) as H. rewrite M_nil in H.
  destruct (first_match r None []); [discriminate|reflexivity].
Qed.

Lemma re_sub_nomatch (c : ascii) (tl : text) :
  M (c :: tl) = None -> re_sub r repl (c :: tl) = c :: re_sub r repl tl.
Proof.
  intros E. unfold re_sub; cbn [sub_from].
  pose proof (first_match_M None (c :: tl)) as H. rewrite E in H.
  destruct (first_match r None (c :: tl)); [discriminate|].
  f_equal. apply sub_from_prev.
Qed.

Lemma re_sub_match (t u : text) :
  M t = Some u -> re_sub r repl t = repl ++ re_sub r repl u.
Proof.
  intros E. destruct (M_suffix E) as [k [Hu Hk]].
  destruct t as [|c tl]; [simpl in Hk; lia|].
  unfold re_sub; cbn [sub_from].
  pose proof (first_match_M None (c :: tl)) as H. rewrite E in H.
  destruct (first_match r None (c :: tl)) as [s'|]; [|discriminate].
  cbn [option_map] in H. injection H as H.
  f_equal. unfold taken. rewrite H, Hu, length_skipn.
  replace (length (c :: tl) - (length (c :: tl) - S k)) with (S k) by lia.
  rewrite sub_from_skip by (simpl in Hk; lia). reflexivity.
Qed.

(** Induction along the scan of [re.sub]. *)
Lemma re_sub_ind (P : text -> text -> Prop) :
  P [] [] ->
  (forall c tl, M (c :: tl) = None ->
                P tl (re_sub r repl tl) -> P (c :: tl) (c :: re_sub r repl tl)) ->
  (forall t u, M t = Some u ->
               P u (re_sub r repl u) -> P t (repl ++ re_sub r repl u)) ->
  forall t, P t (re_sub r repl t).
Proof.
  intros Hnil Hno Hyes t.
  remember (length t) as n eqn:En. revert t En.
  induction n as [n IH] using lt_wf_ind; intros t En.
  destruct (M t) as [u|] eqn:E.
  - rewrite (re_sub_match E). apply Hyes; [assumption|].
    destruct (M_suffix E) as [k [Hu Hk]].
    apply (IH (length u)); [|reflexivity].
    rewrite Hu, length_skipn. lia.
  - destruct t as [|c tl]; [rewrite re_sub_nil; assumption|].
    rewrite (re_sub_nomatch E). apply Hno; [assumption|].
    apply (IH (length tl)); [simpl in En; lia|reflexivity].
Qed.

End SubUnfold.

(** ** The best match of the literal and of the line-comment pattern *)

Lemma hd_error_app {A : Type} (l1 l2 : list A) :
  hd_error (l1 ++ l2)
  = match hd_error l1 with Some x => Some x | None => hd_error l2 end.
Proof. destruct l1; reflexivity. Qed.

Lemma star_loop_stop (step : mstate -> list mstate) (fuel : nat) (s : mstate) :
  step s = [] -> star_loop step fuel s = [s].
Proof. intros H. destruct fuel; cbn [star_loop]; [|rewrite H]; reflexivity. Qed.

Lemma star_loop_one (step : mstate -> list mstate) (fuel : nat) (s s1 : mstate) :
  step s = [s1] -> length (rest s1) < length (rest s) ->
  star_loop step (S fuel) s = star_loop step fuel s1 ++ [s].
Proof.
  intros H Hlt. cbn [star_loop]. rewrite H. cbn [flat_map].
  apply Nat.ltb_lt in Hlt. rewrite Hlt, app_nil_r. reflexivity.
Qed.

Section Quoted.

Variable q : ascii.
Hypothesis q_not_BS : q <> BS.

Lemma matches_body (p : option ascii) (t : text) (g : option text) :
  matches (quoted_body q) (MState p t g)
  = match t with
    | [] => []
    | c :: tl =>
        if Ascii.eqb c q then []
        else if Ascii.eqb c BS then
          match tl with
          | [] => []
          | d :: tl' => if Ascii.eqb d NL then [] else [MState (Some d) tl' g]
          end
        else [MState (Some c) tl g]
    end.
Proof.
  destruct t as [|c tl]; [reflexivity|].
  unfold quoted_body. cbn [matches ch dot rest grp flat_map].
  destruct (Ascii.eqb_spec c q) as [->|Hq].
  - destruct (Ascii.eqb_spec BS q); [congruence|reflexivity].
  - destruct (Ascii.eqb_spec c BS) as [->|Hb].
    + rewrite Ascii.eqb_refl. cbn [orb negb app flat_map matches rest grp].
      destruct tl as [|d tl']; [reflexivity|].
      destruct (Ascii.eqb d NL); reflexivity.
    + destruct (Ascii.eqb_spec BS c); [congruence|reflexivity].
Qed.

Lemma matches_close_not_q (p : option ascii) (c : ascii) (tl : text)
  (g : option text) :
  c <> q -> matches (ch q) (MState p (c :: tl) g) = [].
Proof.
  intros H. cbn. destruct (Ascii.eqb_spec q c); [congruence|reflexivity].
Qed.

Lemma star_body_closing (fuel : nat) :
  forall s, length (rest s) <= fuel ->
  option_map rest
    (hd_error (flat_map (matches (ch q)) (star_loop (matches (quoted_body q)) fuel s)))
  = closing q (rest s).
Proof.
  induction fuel as [fuel IH] using lt_wf_ind. intros [p t g] Hlen.
  cbn [rest] in *. destruct t as [|c tl].
  - rewrite star_loop_stop by apply matches_body. reflexivity.
  - destruct fuel as [|fuel]; [simpl in Hlen; lia|].
    cbn [closing]. pose proof (matches_body p (c :: tl) g) as Hb.
    cbn iota in Hb. destruct (Ascii.eqb_spec c q) as [->|Hq].
    + rewrite star_loop_stop by assumption. cbn.
      rewrite Ascii.eqb_refl. reflexivity.
    + destruct (Ascii.eqb c BS).
      * destruct tl as [|d tl'].
        { rewrite star_loop_stop by assumption. cbn [flat_map].
          rewrite matches_close_not_q by assumption. reflexivity. }
        destruct (Ascii.eqb d NL).
        { rewrite star_loop_stop by assumption. cbn [flat_map].
          rewrite matches_close_not_q by assumption. reflexivity. }
        rewrite (star_loop_one _ fuel _ Hb) by (simpl; lia).
        rewrite flat_map_app. cbn [flat_map].
        rewrite matches_close_not_q by assumption. rewrite !app_nil_r.
        destruct fuel as [|fuel]; [simpl in Hlen; lia|].
        rewrite (IH (S fuel)) by (simpl in *; lia). reflexivity.
      * rewrite (star_loop_one _ fuel _ Hb) by (simpl; lia).
        rewrite flat_map_app. cbn [flat_map].
        rewrite matches_close_not_q by assumption. rewrite !app_nil_r.
        rewrite (IH fuel) by (simpl in *; lia). reflexivity.
Qed.

(** The best match of [quoted q] at the start of [t] ends where
    [after_quoted] says. *)
Lemma first_match_quoted (p : option ascii) (t : text) :
  option_map rest (first_match (quoted q) p t) = after_quoted q t.
Proof.
  unfold first_match, after_quoted.
  destruct t as [|c tl]; [reflexivity|].
  change (matches (quoted q) (MState p (c :: tl) None))
    with (flat_map (fun s => flat_map (matches (ch q)) (matches (Star (quoted_body q)) s))
                   (if Ascii.eqb q c then [MState (Some c) tl None] else [])).
  destruct (Ascii.eqb q c); [|reflexivity].
  cbn [flat_map matches rest]. rewrite app_nil_r.
  apply (@star_body_closing (length tl) (MState (Some c) tl None)). cbn [rest]. lia.
Qed.

Lemma closing_suffix_bounded (n : nat) :
  forall t u, length t <= n -> closing q t = Some u ->
  exists k, u = skipn (S k) t /\ S k <= length t.
Proof.
  induction n as [n IH] using lt_wf_ind; intros t u Hn.
  destruct t as [|c tl]; [discriminate|]. cbn [closing].
  destruct (Ascii.eqb c q).
  - intros [= <-]. exists 0; split; [reflexivity|simpl; lia].
  - destruct n as [|n]; [simpl in Hn; lia|]. destruct (Ascii.eqb c BS).
    + destruct tl as [|d tl']; [discriminate|].
      destruct (Ascii.eqb d NL); [discriminate|]. intros H.
      destruct (IH n ltac:(lia) tl' u ltac:(simpl in Hn; lia) H)
        as [k [Hu Hk]].
      exists (S (S k)); split; [exact Hu|simpl in *; lia].
    + intros H.
      destruct (IH n ltac:(lia) tl u ltac:(simpl in Hn; lia) H)
        as [k [Hu Hk]].
      exists (S k); split; [exact Hu|simpl in *; lia].
Qed.

Lemma closing_suffix (t u : text) :
  closing q t = Some u -> exists k, u = skipn (S k) t /\ S k <= length t.
Proof. apply closing_suffix_bounded with (length t). lia. Qed.

Lemma after_quoted_suffix (t u : text) :
  after_quoted q t = Some u -> exists k, u = skipn (S k) t /\ S k <= length t.
Proof.
  unfold after_quoted. destruct t as [|c tl]; [discriminate|].
  destruct (Ascii.eqb q c); [|discriminate]. intros H.
  destruct (closing_suffix _ H) as [k [Hu Hk]].
  exists (S k); split; [exact Hu|simpl; lia].
Qed.

End Quoted.

Lemma star_dot_eol (fuel : nat) :
  forall s, length (rest s) <= fuel ->
  option_map rest
    (hd_error (flat_map (matches (Eol true)) (star_loop (matches dot) fuel s)))
  = Some (drop_line (rest s)).
Proof.
  induction fuel as [|fuel IH]; intros [p t g] Hlen; cbn [rest] in *.
  - destruct t; [reflexivity|simpl in Hlen; lia].
  - destruct t as [|c tl].
    + rewrite star_loop_stop by reflexivity. reflexivity.
    + cbn [drop_line]. destruct (Ascii.eqb c NL) eqn:E.
      * rewrite star_loop_stop by (cbn; rewrite E; reflexivity).
        cbn. rewrite E. reflexivity.
      * rewrite (@star_loop_one _ fuel _ (MState (Some c) tl g))
          by (cbn; try rewrite E; try reflexivity; lia).
        rewrite flat_map_app, hd_error_app.
        specialize (IH (MState (Some c) tl g)). cbn [rest] in IH.
        specialize (IH ltac:(simpl in Hlen; lia)).
        destruct (hd_error (flat_map (matches (Eol true))
                                     (star_loop (matches dot) fuel
                                                (MState (Some c) tl g))));
          [exact IH|discriminate].
Qed.

(** The best match of [single_comment] at the start of [t] ends where
    [after_single_comment] says. *)
Lemma first_match_single_comment (p : option ascii) (t : text) :
  option_map rest (first_match single_comment p t) = after_single_comment t.
Proof.
  unfold first_match, single_comment, after_single_comment.
  cbn [matches]. rewrite matches_lit. cbn [rest prev grp].
  destruct (startswith (T "//") t); [|reflexivity].
  cbn [flat_map matches rest String.length]. rewrite app_nil_r.
  apply (@star_dot_eol (length (skipn 2 t))
                       (MState (lit_prev "//" p) (skipn 2 t) None)).
  cbn [rest]. lia.
Qed.

Lemma drop_line_suffix (t : text) :
  exists k, drop_line t = skipn k t /\ k <= length t.
Proof.
  induction t as [|c tl [k [E Hk]]]; [exists 0; split; [reflexivity|lia]|].
  cbn [drop_line]. destruct (Ascii.eqb c NL).
  - exists 0; split; [reflexivity|lia].
  - exists (S k); split; [exact E|simpl; lia].
Qed.

Lemma after_single_comment_suffix (t u : text) :
  after_single_comment t = Some u ->
  exists k, u = skipn (S k) t /\ S k <= length t.
Proof.
  unfold after_single_comment.
  destruct (startswith (T "//") t) eqn:E; [|discriminate]. intros [= <-].
  destruct t as [|a [|b tl]];
    try (cbn in E; rewrite ?andb_false_r in E; discriminate).
  destruct (drop_line_suffix tl) as [k [Ek Hk]].
  exists (S k); split; [cbn [skipn]; exact Ek|simpl; lia].
Qed.

(** ** Characters that a pass keeps out *)

Lemma mem_app (c : ascii) (a b : text) : mem c (a ++ b) = mem c a || mem c b.
Proof. apply existsb_app. Qed.

Lemma mem_skipn (c : ascii) (k : nat) (t : text) :
  mem c t = false -> mem c (skipn k t) = false.
Proof.
  intros H. rewrite <- (firstn_skipn k t), mem_app in H.
  apply orb_false_elim in H as [_ H]. exact H.
Qed.

Lemma mem_firstn (c : ascii) (k : nat) (t : text) :
  mem c t = false -> mem c (firstn k t) = false.
Proof.
  intros H. rewrite <- (firstn_skipn k t), mem_app in H.
  apply orb_false_elim in H as [H _]. exact H.
Qed.

(** ** Reading a text for its quotes *)

Section Quotes.

Variable q : ascii.

Lemma qrun_app (st : qstate) (a w : text) :
  qrun q st (a ++ w)
  = match qrun q st a with Some st' => qrun q st' w | None => None end.
Proof.
  revert st; induction a as [|c a IH]; intros st; [reflexivity|].
  cbn [app qrun]. destruct (qnext q st c); [apply IH|reflexivity].
Qed.

Lemma qok_app (st : qstate) (a w : text) :
  qok q st (a ++ w)
  = match qrun q st a with Some st' => qok q st' w | None => false end.
Proof.
  unfold qok. rewrite qrun_app. destruct (qrun q st a); reflexivity.
Qed.

Lemma qok_prefix (st : qstate) (a w : text) :
  qok q st (a ++ w) = true -> qok q st a = true.
Proof.
  rewrite qok_app. unfold qok. destruct (qrun q st a); [reflexivity|discriminate].
Qed.

Lemma qrun_no_quote (st : qstate) (t : text) :
  mem q t = false ->
  qrun q st t = Some (match t, st with
                      | [], _ => st
                      | _ :: _, QE => QE
                      | _ :: _, _ => QL
                      end).
Proof.
  revert st; induction t as [|c t IH]; intros st H; [reflexivity|].
  cbn [mem existsb] in H. apply orb_false_elim in H as [Hc H].
  cbn [qrun]. unfold qnext. rewrite Ascii.eqb_sym, Hc.
  destruct st; rewrite (IH _ H); destruct t; reflexivity.
Qed.

Lemma qok_no_quote (st : qstate) (t : text) :
  mem q t = false -> qok q st t = true.
Proof. intros H. unfold qok. rewrite (@qrun_no_quote st t H). reflexivity. Qed.

Lemma qok_QL (t : text) : qok q QL t = negb (mem q t).
Proof.
  induction t as [|c t IH]; [reflexivity|].
  unfold qok in *. cbn [qrun mem existsb]. unfold qnext.
  rewrite (Ascii.eqb_sym q c). destruct (Ascii.eqb c q); [reflexivity|exact IH].
Qed.

Lemma qok_QL_no_quote (t : text) : qok q QL t = true -> mem q t = false.
Proof. rewrite qok_QL. destruct (mem q t); [discriminate|reflexivity]. Qed.

(** A text that is read to [QH] ends with a quote. *)
Lemma qrun_QH_last (st : qstate) (a : text) (l : ascii) :
  qrun q st (a ++ [l]) = Some QH -> l = q.
Proof.
  rewrite qrun_app. destruct (qrun q st a) as [st'|]; [|discriminate].
  cbn [qrun]. unfold qnext. destruct (Ascii.eqb_spec l q); [trivial|].
  destruct st'; discriminate.
Qed.

(** Replacing a piece that starts with no quote, and ends clear, by a text
    without quotes keeps the reading going, whatever the state it starts
    in. *)
Lemma qok_replace_chunk (st : qstate) (f : ascii) (chunk' u repl v : text) :
  f <> q ->
  ends_clear q (f :: chunk') u ->
  mem q repl = false ->
  (forall st', qok q st' u = true -> qok q st' v = true) ->
  qok q st ((f :: chunk') ++ u) = true ->
  qok q st (repl ++ v) = true.
Proof.
  intros Hf Hend Hrepl Hv H.
  assert (Hlone : forall w, qok q QL w = true -> forall st', qok q st' w = true)
    by (intros w Hw st'; apply qok_no_quote, qok_QL_no_quote; assumption).
  assert (Hafter : forall st', st' <> QE ->
             qok q st' ((f :: chunk') ++ u) = true -> qok q QL u = true).
  { intros st' Hst' H'. unfold qok in H'. cbn [app qrun] in H'.
    unfold qnext in H'. destruct (Ascii.eqb_spec f q); [congruence|].
    assert (H2 : qok q QL (chunk' ++ u) = true)
      by (unfold qok; destruct st'; [congruence|exact H'|exact H']).
    apply qok_QL_no_quote in H2. rewrite mem_app in H2.
    apply orb_false_elim in H2 as [_ H2]. rewrite qok_QL, H2. reflexivity. }
  rewrite qok_app, (@qrun_no_quote st repl Hrepl).
  destruct st.
  - (* from QE the replacement leaves the state QE *)
    assert (E : qok q QE v = true).
    { rewrite qok_app in H.
      destruct (qrun q QE (f :: chunk')) as [[| |]|] eqn:Erun; [| |
        |discriminate].
      - apply Hv; assumption.
      - apply Hlone, Hv. destruct Hend as [(init & l & E & Hl)|[->|(c & u' & -> & Hc)]].
        + rewrite E in Erun. apply qrun_QH_last in Erun. congruence.
        + reflexivity.
        + unfold qok in H |- *. cbn [qrun] in H |- *. unfold qnext in H |- *.
          destruct (Ascii.eqb_spec c q); [congruence|exact H].
      - apply Hlone, Hv; assumption. }
    destruct repl; exact E.
  - apply Hlone, Hv, (Hafter QH); [discriminate|assumption].
  - apply Hlone, Hv, (Hafter QL); [discriminate|assumption].
Qed.

(** Cutting such a piece out of the middle of a text. *)
Lemma qok_cut_chunk (st : qstate) (a : text) (f : ascii) (chunk' b : text) :
  f <> q ->
  ends_clear q (f :: chunk') b ->
  qok q st (a ++ (f :: chunk') ++ b) = true ->
  qok q st (a ++ b) = true.
Proof.
  intros Hf Hend. rewrite !qok_app.
  destruct (qrun q st a) as [st'|]; [|trivial]. intros H.
  apply (@qok_replace_chunk st' f chunk' b [] b); auto.
Qed.

End Quotes.

(** ** What a pass of [re.sub] keeps of the reading for quotes *)

Section SubKeepsQuotes.

Variable r : regex.
Variable repl : text.
Variable M : text -> option text.
Variable q : ascii.

Hypothesis first_match_M :
  forall p t, option_map rest (first_match r p t) = M t.
Hypothesis M_suffix :
  forall t u, M t = Some u -> exists k, u = skipn (S k) t /\ S k <= length t.

(** What a match takes starts with no quote [q] and ends clear. *)
Hypothesis M_chunk :
  forall t u, M t = Some u ->
  exists f chunk', t = (f :: chunk') ++ u /\ f <> q
                   /\ ends_clear q (f :: chunk') u.
Hypothesis repl_no_quote : mem q repl = false.

Lemma qok_re_sub (t : text) :
  forall st, qok q st t = true -> qok q st (re_sub r repl t) = true.
Proof.
  apply (@re_sub_ind r repl M first_match_M M_suffix
           (fun t o => forall st, qok q st t = true -> qok q st o = true)).
  - trivial.
  - intros c tl _ IH st. unfold qok. cbn [qrun].
    destruct (qnext q st c); [apply IH|trivial].
  - intros t0 u E IH st H.
    destruct (M_chunk E) as (f & chunk' & Et & Hf & Hend).
    rewrite Et in H.
    apply (@qok_replace_chunk q st f chunk' u repl (re_sub r repl u)); auto.
Qed.

End SubKeepsQuotes.

Section SubKeepsOut.

Variable r : regex.
Variable repl : text.
Variable M : text -> option text.
Variable c : ascii.

Hypothesis first_match_M :
  forall p t, option_map rest (first_match r p t) = M t.
Hypothesis M_suffix :
  forall t u, M t = Some u -> exists k, u = skipn (S k) t /\ S k <= length t.
Hypothesis repl_without : mem c repl = false.

(** A character that is neither in the text nor in the replacement is not
    in the result. *)
Lemma mem_re_sub (t : text) :
  mem c t = false -> mem c (re_sub r repl t) = false.
Proof.
  apply (@re_sub_ind r repl M first_match_M M_suffix
           (fun t o => mem c t = false -> mem c o = false)).
  - trivial.
  - intros x tl _ IH H. cbn [mem existsb] in *.
    apply orb_false_elim in H as [Hx H]. rewrite Hx. apply IH, H.
  - intros t0 u E IH H. rewrite mem_app, repl_without.
    destruct (M_suffix E) as [k [-> _]]. apply IH, mem_skipn, H.
Qed.

End SubKeepsOut.

(** ** The pieces that the passes take *)

Lemma closing_split (q : ascii) (t u : text) :
  closing q t = Some u -> exists mid, t = mid ++ q :: u.
Proof.
  remember (length t) as n eqn:En. revert t u En.
  induction n as [n IH] using lt_wf_ind; intros t u ->.
  destruct t as [|c tl]; [discriminate|]. cbn [closing].
  destruct (Ascii.eqb_spec c q) as [->|_].
  - intros [= <-]. exists []; reflexivity.
  - destruct (Ascii.eqb c BS).
    + destruct tl as [|d tl']; [discriminate|].
      destruct (Ascii.eqb d NL); [discriminate|]. intros H.
      destruct (IH (length tl') ltac:(simpl; lia) tl' u eq_refl H) as [mid ->].
      exists (c :: d :: mid); reflexivity.
    + intros H.
      destruct (IH (length tl) ltac:(simpl; lia) tl u eq_refl H) as [mid ->].
      exists (c :: mid); reflexivity.
Qed.

(** A literal starts and ends with its quote. *)
Lemma after_quoted_chunk (q' q : ascii) (t u : text) :
  q' <> q -> after_quoted q' t = Some u ->
  exists f chunk', t = (f :: chunk') ++ u /\ f <> q
                   /\ ends_clear q (f :: chunk') u.
Proof.
  intros Hq. unfold after_quoted. destruct t as [|c tl]; [discriminate|].
  destruct (Ascii.eqb_spec q' c) as [<-|]; [|discriminate]. intros H.
  destruct (closing_split _ _ H) as [mid ->].
  exists q', (mid ++ [q']). split; [|split; [assumption|]].
  - cbn [app]. rewrite <- app_assoc. reflexivity.
  - left. exists (q' :: mid), q'. split; [reflexivity|assumption].
Qed.

Lemma drop_line_head (t : text) :
  drop_line t = [] \/ exists u', drop_line t = NL :: u'.
Proof.
  induction t as [|c tl IH]; [left; reflexivity|]. cbn [drop_line].
  destruct (Ascii.eqb_spec c NL) as [->|_]; [right; exists tl; reflexivity|exact IH].
Qed.

(** A [//] comment starts with a slash and ends before a line end. *)
Lemma after_single_comment_chunk (q : ascii) (t u : text) :
  q <> "/"%char -> q <> NL -> after_single_comment t = Some u ->
  exists f chunk', t = (f :: chunk') ++ u /\ f <> q
                   /\ ends_clear q (f :: chunk') u.
Proof.
  intros Hs Hn H.
  destruct (after_single_comment_suffix _ H) as [k [Hu Hk]].
  unfold after_single_comment in H.
  destruct (startswith (T "//") t) eqn:E; [|discriminate]. injection H as H.
  destruct t as [|a tl]; [discriminate|].
  cbn [startswith T list_ascii_of_string] in E.
  apply andb_prop in E as [Ea _]. apply Ascii.eqb_eq in Ea. subst a.
  exists "/"%char, (firstn k tl). split; [|split; [congruence|]].
  - rewrite Hu. cbn [skipn]. change (("/"%char :: firstn k tl) ++ skipn k tl)
      with ("/"%char :: (firstn k tl ++ skipn k tl)).
    rewrite firstn_skipn. reflexivity.
  - right. rewrite <- H.
    match goal with
    | |- context [drop_line ?x] => destruct (drop_line_head x) as [->|[u' ->]]
    end.
    + left; reflexivity.
    + right. exists NL, u'. split; [reflexivity|congruence].
Qed.

(** ** What the block-comment loop keeps *)

Lemma firstn_plus (j k : nat) (s : text) :
  firstn (j + k) s = firstn j s ++ firstn k (skipn j s).
Proof.
  revert s; induction j as [|j IH]; intros s; [reflexivity|].
  destruct s as [|c s]; [cbn; rewrite firstn_nil; reflexivity|].
  cbn [Nat.add firstn skipn app]. rewrite IH. reflexivity.
Qed.

(** A round that goes on cuts out a piece that starts and ends with a
    slash. *)
Lemma multi_comment_step_continue_split (t t' : text) :
  multi_comment_step t = Continue t' ->
  exists a chunk' init b,
    t = a ++ ("/"%char :: chunk') ++ b /\ t' = a ++ b
    /\ "/"%char :: chunk' = init ++ ["/"%char].
Proof.
  rewrite multi_comment_step_find.
  destruct (find OPEN t) as [i|] eqn:Ei; [|discriminate].
  destruct (find CLOSE (skipn i t)) as [j|] eqn:Ej; [|discriminate].
  intros [= <-].
  pose proof (find_some_startswith _ _ Ei) as Si.
  pose proof (find_some_startswith _ _ Ej) as Sj.
  apply startswith_split in Si, Sj.
  change (length OPEN) with 2 in Si. change (length CLOSE) with 2 in Sj.
  set (s := skipn i t) in *.
  assert (Echunk : firstn (j + 2) s = (firstn j s ++ ["*"%char]) ++ ["/"%char]).
  { rewrite firstn_plus, Sj. rewrite <- app_assoc. reflexivity. }
  assert (Ehead : exists chunk', firstn (j + 2) s = "/"%char :: chunk').
  { rewrite Si. replace (j + 2) with (S (j + 1)) by lia.
    cbn [OPEN T list_ascii_of_string app firstn]. eauto. }
  destruct Ehead as [chunk' Ehead].
  exists (firstn i t), chunk', (firstn j s ++ ["*"%char]), (skipn (j + 2) s).
  split; [|split].
  - rewrite <- Ehead, firstn_skipn. unfold s. rewrite firstn_skipn. reflexivity.
  - unfold s. rewrite skipn_skipn. f_equal. f_equal. lia.
  - rewrite <- Ehead. exact Echunk.
Qed.

(** A round that leaves the loop returns a prefix of the text. *)
Lemma multi_comment_step_break_prefix (t r : text) :
  multi_comment_step t = Break r -> exists w, t = r ++ w.
Proof.
  rewrite multi_comment_step_find.
  destruct (find OPEN t) as [i|].
  - destruct (find CLOSE (skipn i t)); [discriminate|].
    intros [= <-]. exists (skipn i t). symmetry; apply firstn_skipn.
  - intros [= <-]. exists []. symmetry; apply app_nil_r.
Qed.

(** What every round keeps, the loop keeps. *)
Lemma remove_multi_comments_invariant (P : text -> Prop) :
  (forall t t', multi_comment_step t = Continue t' -> P t -> P t') ->
  (forall t r, multi_comment_step t = Break r -> P t -> P r) ->
  forall t, P t -> P (remove_multi_comments t).
Proof.
  intros Hc Hb.
  assert (H : forall fuel t r, multi_comment_loop fuel t = Some r -> P t -> P r).
  { induction fuel as [|fuel IH]; intros t r; [discriminate|].
    cbn [multi_comment_loop].
    destruct (multi_comment_step t) as [t'|r'] eqn:E.
    - intros Hl Ht. apply (IH t' r Hl). apply (Hc t); assumption.
    - intros [= <-] Ht. apply (Hb t); assumption. }
  intros t. apply (H (S (length t) + 0) t). apply remove_multi_comments_loop.
Qed.

Lemma qok_remove_multi_comments (q : ascii) (st : qstate) (t : text) :
  q <> "/"%char ->
  qok q st t = true -> qok q st (remove_multi_comments t) = true.
Proof.
  intros Hq. apply (remove_multi_comments_invariant (fun t => qok q st t = true)).
  - intros t0 t' E H.
    destruct (multi_comment_step_continue_split _ E)
      as (a & chunk' & init & b & -> & -> & Elast).
    apply (@qok_cut_chunk q st a "/"%char chunk' b); [congruence| |assumption].
    left. exists init, "/"%char. split; [assumption|congruence].
  - intros t0 r E H. destruct (multi_comment_step_break_prefix _ E) as [w ->].
    apply qok_prefix with w; assumption.
Qed.

Lemma mem_remove_multi_comments (c : ascii) (t : text) :
  mem c t = false -> mem c (remove_multi_comments t) = false.
Proof.
  apply (remove_multi_comments_invariant (fun t => mem c t = false)).
  - intros t0 t' E H.
    destruct (multi_comment_step_continue_split _ E)
      as (a & chunk' & init & b & -> & -> & _).
    rewrite !mem_app in *. apply orb_false_elim in H as [Ha H].
    apply orb_false_elim in H as [_ Hb]. rewrite Ha, Hb. reflexivity.
  - intros t0 r E H. destruct (multi_comment_step_break_prefix _ E) as [w ->].
    rewrite mem_app in H. apply orb_false_elim in H as [H _]. exact H.
Qed.

(** A text without opening marker is left as it is. *)
Lemma remove_multi_comments_id (t : text) :
  contains OPEN t = false -> remove_multi_comments t = t.
Proof.
  intros H. apply contains_none_find in H.
  unfold remove_multi_comments. cbn [multi_comment_loop].
  rewrite multi_comment_step_find, H. reflexivity.
Qed.

(** ** No [//] is left *)

Lemma contains_app_l (p a w : text) :
  contains p a = true -> contains p (a ++ w) = true.
Proof.
  induction a as [|c a IH]; cbn [contains app]; intros H.
  - rewrite orb_false_r in H. destruct p; [|discriminate].
    destruct w; reflexivity.
  - apply orb_prop in H as [H|H].
    + change (c :: a ++ w) with ((c :: a) ++ w).
      rewrite startswith_app_l by assumption. reflexivity.
    + rewrite IH by assumption. apply orb_true_r.
Qed.

Lemma contains_app_r (p w b : text) :
  contains p b = true -> contains p (w ++ b) = true.
Proof.
  intros H. induction w as [|c w IH]; [exact H|].
  cbn [app contains]. rewrite IH. apply orb_true_r.
Qed.

(** An occurrence of a two-character text in [a ++ b] lies in [a], in [b],
    or across the seam. *)
Lemma contains_two_app (x y : ascii) (a b : text) :
  contains [x; y] (a ++ b) = true ->
  contains [x; y] a = true \/ contains [x; y] b = true
  \/ ((exists a', a = a' ++ [x]) /\ (exists b', b = y :: b')).
Proof.
  induction a as [|c a IH]; [auto|].
  change ((c :: a) ++ b) with (c :: (a ++ b)). cbn [contains]. intros H.
  apply orb_prop in H as [H|H].
  - cbn [startswith] in H. apply andb_prop in H as [Hx H].
    apply Ascii.eqb_eq in Hx. subst c.
    destruct a as [|d a].
    + destruct b as [|d b]; [discriminate|]. cbn [app] in H.
      apply andb_prop in H as [Hy _]. apply Ascii.eqb_eq in Hy. subst d.
      right; right. split; [exists []; reflexivity|exists b; reflexivity].
    + cbn [app] in H. apply andb_prop in H as [Hy _].
      left. cbn [startswith]. rewrite Ascii.eqb_refl, Hy. reflexivity.
  - destruct (IH H) as [Ha|[Hb|[[a' ->] Hb]]].
    + left. rewrite Ha. apply orb_true_r.
    + auto.
    + right; right. split; [exists (c :: a'); reflexivity|assumption].
Qed.

Lemma re_sub_single_comment_ind (P : text -> text -> Prop) :
  P [] [] ->
  (forall c tl, after_single_comment (c :: tl) = None ->
                P tl (re_sub single_comment [] tl) ->
                P (c :: tl) (c :: re_sub single_comment [] tl)) ->
  (forall t u, after_single_comment t = Some u ->
               P u (re_sub single_comment [] u) ->
               P t (re_sub single_comment [] u)) ->
  forall t, P t (re_sub single_comment [] t).
Proof.
  intros H1 H2 H3.
  apply (@re_sub_ind single_comment [] after_single_comment
           first_match_single_comment after_single_comment_suffix P);
    assumption.
Qed.

(** The pass that removes the [//] comments leaves no [//], and its result
    starts with a slash only where the text does, outside a comment. *)
Lemma re_sub_single_comment_clean (t : text) :
  contains SLASHES (re_sub single_comment [] t) = false
  /\ (forall o', re_sub single_comment [] t = "/"%char :: o' ->
      exists tl, t = "/"%char :: tl /\ after_single_comment t = None).
Proof.
  apply (@re_sub_single_comment_ind
           (fun t o => contains SLASHES o = false
                       /\ (forall o', o = "/"%char :: o' ->
                           exists tl, t = "/"%char :: tl
                                      /\ after_single_comment t = None))).
  - split; [reflexivity|discriminate].
  - intros c tl E [IH1 IH2]. split.
    + cbn [contains]. rewrite IH1, orb_false_r.
      cbn [SLASHES T list_ascii_of_string startswith].
      destruct (Ascii.eqb_spec "/"%char c) as [<-|]; [|reflexivity].
      destruct (re_sub single_comment [] tl) as [|d o'] eqn:Eo; [reflexivity|].
      destruct (Ascii.eqb_spec "/"%char d) as [<-|]; [|reflexivity].
      destruct (IH2 o' eq_refl) as [tl' [-> _]].
      unfold after_single_comment in E. cbn in E. discriminate.
    + intros o' [= <- _]. exists tl. split; [reflexivity|assumption].
  - intros t0 u E [IH1 IH2]. split; [assumption|].
    intros o' Eo. destruct (IH2 o' Eo) as [tl [-> _]].
    unfold after_single_comment in E.
    destruct (startswith (T "//") t0); [|discriminate]. injection E as E.
    match type of E with
    | drop_line ?x = _ => destruct (drop_line_head x) as [E'|[u' E']];
                          rewrite E' in E; discriminate
    end.
Qed.

Lemma re_sub_single_comment_id (t : text) :
  contains SLASHES t = false -> re_sub single_comment [] t = t.
Proof.
  apply (@re_sub_single_comment_ind
           (fun t o => contains SLASHES t = false -> o = t)).
  - trivial.
  - intros c tl _ IH H. cbn [contains] in H.
    apply orb_false_elim in H as [_ H]. rewrite IH by assumption. reflexivity.
  - intros t0 u E _ H. unfold after_single_comment in E.
    change (T "//") with SLASHES in E.
    destruct (startswith SLASHES t0) eqn:Es; [|discriminate].
    destruct t0; cbn [contains] in H; rewrite Es in H; discriminate.
Qed.

Lemma contains_SLASHES_remove_multi_comments (t : text) :
  contains SLASHES t = false ->
  contains SLASHES (remove_multi_comments t) = false.
Proof.
  apply (remove_multi_comments_invariant (fun t => contains SLASHES t = false)).
  - intros t0 t' E H.
    destruct (multi_comment_step_continue_split _ E)
      as (a & chunk' & init & b & -> & -> & _).
    destruct (contains SLASHES (a ++ b)) eqn:Eab; [|reflexivity].
    apply (@contains_two_app "/" "/") in Eab.
    destruct Eab as [Ha|[Hb|[[a' ->] _]]].
    + rewrite (contains_app_l _ _ _ Ha) in H. discriminate.
    + rewrite (contains_app_r _ a _ (contains_app_r _ _ _ Hb)) in H.
      discriminate.
    + rewrite <- app_assoc in H.
      rewrite (contains_app_r _ a' _) in H; [discriminate|].
      reflexivity.
  - intros t0 r E H. destruct (multi_comment_step_break_prefix _ E) as [w ->].
    destruct (contains SLASHES r) eqn:Er; [|reflexivity].
    rewrite (contains_app_l _ _ _ Er) in H. discriminate.
Qed.

(** ** Literals and the pairing of quotes *)

Section QuotedNoBackslash.

Variable q : ascii.
Hypothesis q_not_BS : q <> BS.

Lemma re_sub_quoted_ind (P : text -> text -> Prop) :
  P [] [] ->
  (forall c tl, after_quoted q (c :: tl) = None ->
                P tl (re_sub (quoted q) [q; q] tl) ->
                P (c :: tl) (c :: re_sub (quoted q) [q; q] tl)) ->
  (forall t u, after_quoted q t = Some u ->
               P u (re_sub (quoted q) [q; q] u) ->
               P t (q :: q :: re_sub (quoted q) [q; q] u)) ->
  forall t, P t (re_sub (quoted q) [q; q] t).
Proof.
  intros H1 H2 H3.
  apply (@re_sub_ind (quoted q) [q; q] (after_quoted q)
           (first_match_quoted q_not_BS) (@after_quoted_suffix q) P);
    assumption.
Qed.

Lemma closing_no_quote (t : text) : mem q t = false -> closing q t = None.
Proof.
  remember (length t) as n eqn:En. revert t En.
  induction n as [n IH] using lt_wf_ind; intros t -> H.
  destruct t as [|c tl]; [reflexivity|].
  cbn [mem existsb] in H. apply orb_false_elim in H as [Hc H].
  cbn [closing]. rewrite Ascii.eqb_sym, Hc.
  destruct (Ascii.eqb c BS).
  - destruct tl as [|d tl']; [reflexivity|].
    destruct (Ascii.eqb d NL); [reflexivity|].
    cbn [mem existsb] in H. apply orb_false_elim in H as [_ H].
    apply (IH (length tl')); [simpl; lia|reflexivity|exact H].
  - apply (IH (length tl)); [simpl; lia|reflexivity|exact H].
Qed.

(** Without backslash, a literal that is not closed has no quote after its
    opening quote. *)
Lemma closing_none_no_quote (t : text) :
  mem BS t = false -> closing q t = None -> mem q t = false.
Proof.
  induction t as [|c tl IH]; [reflexivity|]. intros Hb.
  cbn [mem existsb] in Hb |- *. apply orb_false_elim in Hb as [Hc Hb].
  cbn [closing]. rewrite (Ascii.eqb_sym q c).
  destruct (Ascii.eqb c q); [discriminate|].
  rewrite Ascii.eqb_sym, Hc. intros H. apply IH; assumption.
Qed.

Lemma re_sub_quoted_no_quote (t : text) :
  mem q t = false -> re_sub (quoted q) [q; q] t = t.
Proof.
  apply (@re_sub_quoted_ind (fun t o => mem q t = false -> o = t)).
  - trivial.
  - intros c tl _ IH H. cbn [mem existsb] in H.
    apply orb_false_elim in H as [_ H]. rewrite IH by assumption. reflexivity.
  - intros t0 u E _ H. unfold after_quoted in E.
    destruct t0 as [|c tl]; [discriminate|]. cbn [mem existsb] in H.
    destruct (Ascii.eqb q c); discriminate.
Qed.

(** Without backslash, what the pass returns has its quotes paired. *)
Lemma re_sub_quoted_paired (t : text) :
  mem BS t = false -> paired q (re_sub (quoted q) [q; q] t) = true.
Proof.
  unfold paired.
  apply (@re_sub_quoted_ind
           (fun t o => mem BS t = false -> qok q QE o = true)).
  - trivial.
  - intros c tl E IH Hb. cbn [mem existsb] in Hb.
    apply orb_false_elim in Hb as [_ Hb].
    unfold after_quoted in E. unfold qok. cbn [qrun]. unfold qnext.
    destruct (Ascii.eqb_spec q c) as [<-|Hc].
    + rewrite Ascii.eqb_refl.
      pose proof (closing_none_no_quote _ Hb E) as Hq.
      rewrite (re_sub_quoted_no_quote _ Hq).
      apply (@qok_no_quote q QH tl Hq).
    + destruct (Ascii.eqb_spec c q); [congruence|]. apply IH, Hb.
  - intros t0 u E IH Hb. unfold qok. cbn [qrun]. unfold qnext.
    rewrite Ascii.eqb_refl. apply IH.
    destruct (after_quoted_suffix _ _ E) as [k [-> _]].
    apply mem_skipn, Hb.
Qed.

(** A text with its quotes paired is left as it is, with or without
    backslash. *)
Lemma re_sub_quoted_id (t : text) :
  paired q t = true -> re_sub (quoted q) [q; q] t = t.
Proof.
  unfold paired.
  apply (@re_sub_quoted_ind (fun t o => qok q QE t = true -> o = t)).
  - trivial.
  - intros c tl E IH Hp. unfold after_quoted in E. f_equal.
    unfold qok in Hp. cbn [qrun] in Hp. unfold qnext in Hp.
    destruct (Ascii.eqb_spec q c) as [<-|Hc].
    + rewrite Ascii.eqb_refl in Hp.
      destruct tl as [|d tl']; [apply IH; reflexivity|].
      apply re_sub_quoted_no_quote.
      destruct (Ascii.eqb_spec d q) as [->|Hd].
      * cbn [closing] in E. rewrite Ascii.eqb_refl in E. discriminate.
      * cbn [qrun] in Hp. unfold qnext in Hp.
        destruct (Ascii.eqb_spec d q); [congruence|].
        cbn [mem existsb]. apply orb_false_intro;
          [destruct (Ascii.eqb_spec q d); congruence
          |exact (qok_QL_no_quote _ _ Hp)].
    + destruct (Ascii.eqb_spec c q); [congruence|]. apply IH. exact Hp.
  - intros t0 u E IH Hp. unfold after_quoted in E.
    destruct t0 as [|c tl]; [discriminate|].
    destruct (Ascii.eqb_spec q c) as [<-|]; [|discriminate].
    unfold qok in Hp. cbn [qrun] in Hp. unfold qnext in Hp.
    rewrite Ascii.eqb_refl in Hp. f_equal.
    destruct tl as [|d tl']; [discriminate|].
    cbn [qrun] in Hp. unfold qnext in Hp.
    destruct (Ascii.eqb_spec d q) as [->|Hdq].
    + cbn [closing] in E. rewrite Ascii.eqb_refl in E.
      injection E as <-. f_equal. apply IH. exact Hp.
    + assert (Hq : mem q (d :: tl') = false).
      { cbn [mem existsb]. apply orb_false_intro;
          [destruct (Ascii.eqb_spec q d); congruence
          |exact (qok_QL_no_quote _ _ Hp)]. }
      rewrite (closing_no_quote _ Hq) in E. discriminate.
Qed.

End QuotedNoBackslash.

(** ** The stripper on its own output *)

(** What the stripper returns holds no [//]. *)
Lemma remove_comments_and_strings_no_SLASHES (content : text) :
  contains SLASHES (remove_comments_and_strings content) = false.
Proof.
  unfold remove_comments_and_strings, remove_strings_and_line_comments.
  apply contains_SLASHES_remove_multi_comments.
  apply re_sub_single_comment_clean.
Qed.

Lemma DQ_not_BS : DQ <> BS.
Proof. discriminate. Qed.

Lemma SQ_not_BS : SQ <> BS.
Proof. discriminate. Qed.

(** A pass on literals of one quote keeps the pairing of the other quote. *)
Lemma paired_re_sub_quoted (q' q : ascii) (t : text) :
  q' <> BS -> q' <> q ->
  paired q t = true -> paired q (re_sub (quoted q') [q'; q'] t) = true.
Proof.
  intros Hb Hq. unfold paired.
  apply (@qok_re_sub (quoted q') [q'; q'] (after_quoted q') q
           (first_match_quoted Hb) (@after_quoted_suffix q')).
  - intros t0 u E. apply after_quoted_chunk with q'; assumption.
  - cbn. destruct (Ascii.eqb_spec q q'); [congruence|reflexivity].
Qed.

Lemma paired_re_sub_single_comment (q : ascii) (t : text) :
  q <> "/"%char -> q <> NL ->
  paired q t = true -> paired q (re_sub single_comment [] t) = true.
Proof.
  intros Hs Hn. unfold paired.
  apply (@qok_re_sub single_comment [] after_single_comment q
           first_match_single_comment after_single_comment_suffix).
  - intros t0 u E. apply after_single_comment_chunk; assumption.
  - reflexivity.
Qed.

Lemma mem_BS_remove_comments_and_strings (content : text) :
  mem BS content = false -> mem BS (remove_comments_and_strings content) = false.
Proof.
  intros H. unfold remove_comments_and_strings, remove_strings_and_line_comments.
  apply mem_remove_multi_comments.
  apply (@mem_re_sub single_comment [] after_single_comment BS
           first_match_single_comment after_single_comment_suffix eq_refl).
  apply (@mem_re_sub (quoted SQ) [SQ; SQ] (after_quoted SQ) BS
           (first_match_quoted SQ_not_BS) (@after_quoted_suffix SQ) eq_refl).
  apply (@mem_re_sub (quoted DQ) [DQ; DQ] (after_quoted DQ) BS
           (first_match_quoted DQ_not_BS) (@after_quoted_suffix DQ) eq_refl).
  exact H.
Qed.

(** Without backslash in the text, what the stripper returns has both kinds
    of quotes paired. *)
Lemma remove_comments_and_strings_paired (content : text) :
  mem BS content = false ->
  paired DQ (remove_comments_and_strings content) = true
  /\ paired SQ (remove_comments_and_strings content) = true.
Proof.
  intros H. unfold remove_comments_and_strings, remove_strings_and_line_comments.
  assert (H1 : mem BS (re_sub (quoted DQ) [DQ; DQ] content) = false).
  { apply (@mem_re_sub (quoted DQ) [DQ; DQ] (after_quoted DQ) BS
             (first_match_quoted DQ_not_BS) (@after_quoted_suffix DQ) eq_refl).
    exact H. }
  split.
  - apply qok_remove_multi_comments; [discriminate|].
    apply paired_re_sub_single_comment; [discriminate|discriminate|].
    apply paired_re_sub_quoted; [discriminate|discriminate|].
    apply re_sub_quoted_paired; [discriminate|exact H].
  - apply qok_remove_multi_comments; [discriminate|].
    apply paired_re_sub_single_comment; [discriminate|discriminate|].
    apply re_sub_quoted_paired; [discriminate|exact H1].
Qed.

(** ** Literals that hold every backslash *)

Lemma re_sub_quoted_nil (q : ascii) : re_sub (quoted q) [q; q] [] = [].
Proof. reflexivity. Qed.

Lemma re_sub_quoted_nomatch (q c : ascii) (tl : text) :
  q <> BS -> after_quoted q (c :: tl) = None ->
  re_sub (quoted q) [q; q] (c :: tl) = c :: re_sub (quoted q) [q; q] tl.
Proof.
  intros Hq.
  exact (@re_sub_nomatch (quoted q) [q; q] (after_quoted q)
           (first_match_quoted Hq) c tl).
Qed.

Lemma re_sub_quoted_match (q : ascii) (t u : text) :
  q <> BS -> after_quoted q t = Some u ->
  re_sub (quoted q) [q; q] t = q :: q :: re_sub (quoted q) [q; q] u.
Proof.
  intros Hq.
  exact (@re_sub_match (quoted q) [q; q] (after_quoted q)
           (first_match_quoted Hq) (@after_quoted_suffix q) t u).
Qed.

Lemma re_sub_quoted_other (q c : ascii) (tl : text) :
  q <> BS -> c <> q ->
  re_sub (quoted q) [q; q] (c :: tl) = c :: re_sub (quoted q) [q; q] tl.
Proof.
  intros Hq Hc. apply re_sub_quoted_nomatch; [exact Hq|].
  cbn [after_quoted]. destruct (Ascii.eqb_spec q c); [congruence|reflexivity].
Qed.

(** When the pass leaves no backslash, a literal that is not closed has no
    quote after its opening quote. *)
Lemma closing_none_kept_no_quote (q : ascii) (t : text) :
  q <> BS ->
  closing q t = None ->
  mem BS (re_sub (quoted q) [q; q] t) = false -> mem q t = false.
Proof.
  intros Hq. induction t as [|c tl IH]; [reflexivity|].
  cbn [closing]. destruct (Ascii.eqb_spec c q) as [->|Hc]; [discriminate|].
  rewrite (re_sub_quoted_other tl Hq Hc).
  cbn [mem existsb]. rewrite (Ascii.eqb_sym q c).
  destruct (Ascii.eqb_spec c q); [congruence|].
  destruct (Ascii.eqb_spec c BS) as [->|Hb].
  - rewrite Ascii.eqb_refl. discriminate.
  - rewrite (Ascii.eqb_sym BS c). destruct (Ascii.eqb_spec c BS); [congruence|].
    cbn [orb]. exact IH.
Qed.

(** When the pass leaves no backslash, what it returns has its quotes
    paired. *)
Lemma re_sub_quoted_kept_paired (q : ascii) (t : text) :
  q <> BS ->
  mem BS (re_sub (quoted q) [q; q] t) = false ->
  paired q (re_sub (quoted q) [q; q] t) = true.
Proof.
  intros Hq. unfold paired.
  apply (@re_sub_quoted_ind q Hq
           (fun t o => mem BS o = false -> qok q QE o = true)).
  - trivial.
  - intros c tl E IH Hb. cbn [mem existsb] in Hb.
    apply orb_false_elim in Hb as [_ Hb].
    unfold after_quoted in E. unfold qok. cbn [qrun]. unfold qnext.
    destruct (Ascii.eqb_spec q c) as [<-|Hc].
    + rewrite Ascii.eqb_refl.
      pose proof (closing_none_kept_no_quote _ Hq E Hb) as Hn.
      rewrite (re_sub_quoted_no_quote Hq _ Hn).
      apply (@qok_no_quote q QH tl Hn).
    + destruct (Ascii.eqb_spec c q); [congruence|]. apply IH, Hb.
  - intros t0 u E IH Hb. cbn [mem existsb] in Hb.
    apply orb_false_elim in Hb as [_ Hb]. apply orb_false_elim in Hb as [_ Hb].
    unfold qok. cbn [qrun]. unfold qnext.
    rewrite Ascii.eqb_refl. apply IH, Hb.
Qed.

Lemma bok_cons (st : bstate) (c : ascii) (t : text) :
  bok st (c :: t)
  = match bnext st c with Some st' => bok st' t | None => false end.
Proof. unfold bok. cbn [brun]. destruct (bnext st c); reflexivity. Qed.

Lemma qok_cons (q : ascii) (st : qstate) (c : ascii) (t : text) :
  qok q st (c :: t)
  = match qnext q st c with Some st' => qok q st' t | None => false end.
Proof. unfold qok. cbn [qrun]. destruct (qnext q st c); reflexivity. Qed.

Lemma bok_step (st : bstate) (c : ascii) (t : text) :
  bok st (c :: t) = true ->
  exists st', bnext st c = Some st' /\ brun st (c :: t) = brun st' t
              /\ bok st' t = true.
Proof.
  rewrite bok_cons. cbn [brun]. destruct (bnext st c) as [st'|]; [|discriminate].
  intros H. exists st'. auto.
Qed.

Lemma bok_of_brun (st st' : bstate) (t u : text) :
  brun st t = brun st' u -> bok st t = true -> bok st' u = true.
Proof. unfold bok. intros ->. trivial. Qed.

Lemma bok_H_U (c : ascii) (t : text) :
  c <> DQ -> bok BU (c :: t) = true -> bok BH (c :: t) = true.
Proof.
  intros Hc. rewrite !bok_cons. cbn [bnext].
  destruct (Ascii.eqb_spec c DQ); [congruence|trivial].
Qed.

(** What the pass on double-quoted literals returns is read from [BE]; when
    nothing closes a literal, what the pass returns of its rest is read from
    [BU]. *)
Lemma bok_re_sub_DQ_bounded (n : nat) :
  forall t, length t < n ->
  bok BE (re_sub (quoted DQ) [DQ; DQ] t) = true
  /\ (closing DQ t = None -> bok BU (re_sub (quoted DQ) [DQ; DQ] t) = true).
Proof.
  induction n as [|n IH]; intros t Hlen; [lia|].
  destruct t as [|c tl]; [split; reflexivity|].
  assert (Htl : length tl < n) by (simpl in Hlen; lia).
  split.
  - destruct (after_quoted DQ (c :: tl)) as [u|] eqn:A.
    + rewrite (@re_sub_quoted_match DQ (c :: tl) u DQ_not_BS A).
      rewrite !bok_cons. cbn [bnext]. rewrite Ascii.eqb_refl.
      destruct (@after_quoted_suffix DQ (c :: tl) u A) as (k & -> & Hk).
      apply IH. rewrite length_skipn. simpl in Hlen, Hk |- *. lia.
    + rewrite (@re_sub_quoted_nomatch DQ c tl DQ_not_BS A).
      rewrite bok_cons. cbn [bnext].
      destruct (Ascii.eqb_spec c DQ) as [->|Hc]; [|apply IH; exact Htl].
      cbn [after_quoted] in A. rewrite Ascii.eqb_refl in A.
      pose proof (proj2 (IH tl Htl) A) as HU.
      destruct tl as [|c' tl']; [reflexivity|].
      assert (Hc' : c' <> DQ).
      { intros ->. cbn [closing] in A. rewrite Ascii.eqb_refl in A. discriminate. }
      rewrite (re_sub_quoted_other tl' DQ_not_BS Hc') in HU |- *.
      apply bok_H_U; assumption.
  - intros Hc. cbn [closing] in Hc.
    destruct (Ascii.eqb_spec c DQ) as [->|Hq]; [discriminate|].
    rewrite (re_sub_quoted_other tl DQ_not_BS Hq).
    rewrite bok_cons. cbn [bnext].
    destruct (Ascii.eqb_spec c DQ); [congruence|].
    destruct (Ascii.eqb_spec c BS) as [->|Hb]; [|apply IH; assumption].
    destruct tl as [|d tl']; [reflexivity|].
    assert (Htl' : length tl' < n) by (simpl in Hlen; lia).
    assert (A : after_quoted DQ (d :: tl') = None).
    { cbn [after_quoted]. destruct (Ascii.eqb_spec DQ d) as [<-|]; [|reflexivity].
      exact Hc. }
    rewrite (@re_sub_quoted_nomatch DQ d tl' DQ_not_BS A).
    rewrite bok_cons. cbn [bnext].
    destruct (Ascii.eqb_spec d NL) as [->|Hd].
    + apply IH. lia.
    + apply IH; [lia|exact Hc].
Qed.

Lemma bok_re_sub_DQ (t : text) : bok BE (re_sub (quoted DQ) [DQ; DQ] t) = true.
Proof. apply (@bok_re_sub_DQ_bounded (S (length t)) t). lia. Qed.

Lemma bnext_SQ (st : bstate) :
  bnext st SQ = Some (match st with BE => BE | _ => BU end).
Proof. destruct st; reflexivity. Qed.

(** Reading a single-quoted literal ends outside a literal or in one that
    nothing closes. *)
Lemma closing_SQ_brun_bounded (n : nat) :
  forall t u st, length t < n ->
  closing SQ t = Some u -> bok st t = true ->
  exists st', (st' = BE \/ st' = BU) /\ brun st t = brun st' u.
Proof.
  induction n as [|n IH]; intros t u st Hlen Hc Hok; [lia|].
  destruct t as [|c tl]; [discriminate|]. cbn [closing] in Hc.
  destruct (bok_step _ _ _ Hok) as (s1 & N1 & R1 & Ok1).
  destruct (Ascii.eqb_spec c SQ) as [->|Hq].
  - injection Hc as <-. rewrite bnext_SQ in N1. injection N1 as <-.
    exists (match st with BE => BE | _ => BU end).
    split; [destruct st; auto|exact R1].
  - destruct (Ascii.eqb_spec c BS) as [->|Hb].
    + destruct tl as [|d tl']; [discriminate|].
      destruct (Ascii.eqb_spec d NL); [discriminate|].
      destruct (bok_step _ _ _ Ok1) as (s2 & N2 & R2 & Ok2).
      destruct (IH tl' u s2 ltac:(simpl in Hlen; lia) Hc Ok2) as (st' & Hst' & R).
      exists st'. split; [exact Hst'|]. rewrite R1, R2. exact R.
    + destruct (IH tl u s1 ltac:(simpl in Hlen; lia) Hc Ok1) as (st' & Hst' & R).
      exists st'. split; [exact Hst'|]. rewrite R1. exact R.
Qed.

(** Inside a literal that nothing closes, a single-quoted literal is read
    from [BU] to [BU]. *)
Lemma closing_SQ_brun_U_bounded (n : nat) :
  forall t u, length t < n ->
  closing SQ t = Some u -> bok BU t = true -> brun BU t = brun BU u.
Proof.
  induction n as [|n IH]; intros t u Hlen Hc Hok; [lia|].
  destruct t as [|c tl]; [discriminate|]. cbn [closing] in Hc.
  rewrite bok_cons in Hok. cbn [brun]. cbn [bnext] in Hok |- *.
  destruct (Ascii.eqb_spec c SQ) as [->|Hq].
  - injection Hc as <-. reflexivity.
  - destruct (Ascii.eqb_spec c DQ); [discriminate|].
    destruct (Ascii.eqb_spec c BS) as [->|Hb].
    + destruct tl as [|d tl']; [discriminate|].
      rewrite bok_cons in Hok. cbn [brun]. cbn [bnext] in Hok |- *.
      destruct (Ascii.eqb_spec d NL); [discriminate|].
      apply IH; [simpl in Hlen; lia|exact Hc|exact Hok].
    + apply IH; [simpl in Hlen; lia|exact Hc|exact Hok].
Qed.

(** After the pass on single-quoted literals, if no backslash is left, the
    double quotes are read by the plain automaton from the state that
    corresponds to the one the text was read from. *)
Lemma qok_DQ_re_sub_SQ (t : text) :
  mem BS (re_sub (quoted SQ) [SQ; SQ] t) = false ->
  (bok BE t = true -> qok DQ QE (re_sub (quoted SQ) [SQ; SQ] t) = true)
  /\ (bok BH t = true -> qok DQ QH (re_sub (quoted SQ) [SQ; SQ] t) = true)
  /\ (bok BU t = true -> qok DQ QL (re_sub (quoted SQ) [SQ; SQ] t) = true).
Proof.
  apply (@re_sub_quoted_ind SQ SQ_not_BS
           (fun t o => mem BS o = false ->
                       (bok BE t = true -> qok DQ QE o = true)
                       /\ (bok BH t = true -> qok DQ QH o = true)
                       /\ (bok BU t = true -> qok DQ QL o = true))).
  - intros _. repeat split.
  - intros c tl _ IH Hb. cbn [mem existsb] in Hb.
    apply orb_false_elim in Hb as [Hc Hb].
    destruct (IH Hb) as (IE & IH' & IU).
    rewrite !bok_cons, !qok_cons. cbn [bnext]. unfold qnext.
    rewrite (Ascii.eqb_sym c BS), Hc.
    destruct (Ascii.eqb c DQ); repeat split; auto; discriminate.
  - intros t0 u E IH Hb. cbn [mem existsb] in Hb.
    apply orb_false_elim in Hb as [_ Hb]. apply orb_false_elim in Hb as [_ Hb].
    destruct (IH Hb) as (IE & _ & IU).
    assert (Hlone : qok DQ QL (re_sub (quoted SQ) [SQ; SQ] u) = true ->
                    forall st, qok DQ st (re_sub (quoted SQ) [SQ; SQ] u) = true).
    { intros H st. apply qok_no_quote, qok_QL_no_quote. exact H. }
    unfold after_quoted in E. destruct t0 as [|c t']; [discriminate|].
    destruct (Ascii.eqb_spec SQ c) as [<-|]; [|discriminate].
    rewrite !bok_cons, !qok_cons, !bnext_SQ.
    change (qnext DQ QE SQ) with (Some QE).
    change (qnext DQ QH SQ) with (Some QL).
    change (qnext DQ QL SQ) with (Some QL).
    cbv beta iota. rewrite !qok_cons.
    change (qnext DQ QE SQ) with (Some QE).
    change (qnext DQ QL SQ) with (Some QL).
    cbv beta iota.
    assert (HU : bok BU t' = true ->
                 qok DQ QL (re_sub (quoted SQ) [SQ; SQ] u) = true).
    { intros Hok. apply IU.
      apply (@bok_of_brun BU BU t' u); [|exact Hok].
      apply (@closing_SQ_brun_U_bounded (S (length t')) t' u); auto. }
    split; [|split; exact HU].
    intros Hok.
    destruct (@closing_SQ_brun_bounded (S (length t')) t' u BE
                ltac:(lia) E Hok) as (st' & [->| ->] & R).
    + apply IE. exact (@bok_of_brun BE BE t' u R Hok).
    + apply Hlone, IU. exact (@bok_of_brun BE BU t' u R Hok).
Qed.

(** X21. When the two passes on literals leave no backslash, that is when
    every backslash of the text is inside a literal that the passes replace,
    the quotes of both kinds that are left are paired. *)
Theorem no_backslash_left_quotes_paired (content : text) :
  mem BS (remove_strings content) = false ->
  paired DQ (remove_strings content) = true
  /\ paired SQ (remove_strings content) = true.
Proof.
  unfold remove_strings. intros H. split.
  - apply (proj1 (qok_DQ_re_sub_SQ _ H)). apply bok_re_sub_DQ.
  - apply re_sub_quoted_kept_paired; [exact SQ_not_BS|exact H].
Qed.

Lemma no_backslash_left_quotes_paired_witness :
  let content :=
    T "char c = '" ++ [BS] ++ T "n'; /* one */ s = " ++ [DQ] ++ T "a" ++ [BS; DQ]
    ++ T "b // c" ++ [BS; BS; DQ] ++ T "; // it's" ++ [NL] in
  mem BS content = true
  /\ mem BS (remove_strings content) = false
  /\ paired DQ (remove_strings content) = true
  /\ paired SQ (remove_strings content) = true.
Proof.
  intros content.
  assert (H : mem BS (remove_strings content) = false) by (vm_compute; reflexivity).
  split; [vm_compute; reflexivity|].
  split; [exact H|].
  exact (@no_backslash_left_quotes_paired content H).
Defined.

(** ** The stripper applied twice *)

(** C5, as stated, fails: in ["//\<newline>"] the first pass finds no
    literal, since a backslash before a line end closes nothing; removing the
    [//] comment takes the backslash away and leaves a literal that the
    second application replaces. *)
Lemma strip_not_idempotent :
  let content := [DQ; "/"; "/"; BS; NL; DQ]%char in
  remove_comments_and_strings content = [DQ; NL; DQ]
  /\ remove_comments_and_strings (remove_comments_and_strings content) = [DQ; DQ]
  /\ remove_comments_and_strings (remove_comments_and_strings content)
     <> remove_comments_and_strings content.
Proof. vm_compute. repeat split. discriminate. Qed.

(** C5, amended. When, after the two passes on literals, the quotes of each
    kind that are left are adjacent pairs, but for one last quote that no
    quote of its kind follows, the stripper is idempotent: applied to its
    own output it returns that output. *)
Theorem strip_idempotent_quotes_paired (content : text) :
  paired DQ (remove_strings content) = true ->
  paired SQ (remove_strings content) = true ->
  remove_comments_and_strings (remove_comments_and_strings content)
  = remove_comments_and_strings content.
Proof.
  intros Pd Ps.
  assert (Ey : remove_comments_and_strings content
               = remove_multi_comments
                   (re_sub single_comment [] (remove_strings content)))
    by reflexivity.
  assert (Hd : paired DQ (remove_comments_and_strings content) = true).
  { rewrite Ey. apply qok_remove_multi_comments; [discriminate|].
    apply paired_re_sub_single_comment; [discriminate|discriminate|exact Pd]. }
  assert (Hs : paired SQ (remove_comments_and_strings content) = true).
  { rewrite Ey. apply qok_remove_multi_comments; [discriminate|].
    apply paired_re_sub_single_comment; [discriminate|discriminate|exact Ps]. }
  pose proof (remove_comments_and_strings_no_SLASHES content) as Hn.
  pose proof (remove_multi_comments_clean
                (remove_strings_and_line_comments content)) as Ho.
  fold (remove_comments_and_strings content) in Ho.
  clear Ey.
  set (y := remove_comments_and_strings content) in *.
  unfold remove_comments_and_strings at 1, remove_strings_and_line_comments.
  rewrite (re_sub_quoted_id DQ_not_BS _ Hd).
  rewrite (re_sub_quoted_id SQ_not_BS _ Hs).
  rewrite (re_sub_single_comment_id _ Hn).
  apply remove_multi_comments_id. exact Ho.
Qed.

Lemma strip_idempotent_quotes_paired_witness :
  let content :=
    T "#define N 3 " ++ [BS; NL] ++ T "  + 1 // C:" ++ [BS] ++ T "tmp" ++ [NL]
    ++ T "char c = '" ++ [BS] ++ T "n'; /* one */ s = " ++ [DQ] ++ T "a" ++ [BS; DQ]
    ++ T "b // c" ++ [DQ] ++ T "; // tail" ++ [NL] ++ T "int d; /* open" in
  mem BS (remove_strings content) = true
  /\ paired DQ (remove_strings content) = true
  /\ paired SQ (remove_strings content) = true
  /\ remove_comments_and_strings (remove_comments_and_strings content)
     = remove_comments_and_strings content.
Proof.
  intros content.
  assert (Pd : paired DQ (remove_strings content) = true) by (vm_compute; reflexivity).
  assert (Ps : paired SQ (remove_strings content) = true) by (vm_compute; reflexivity).
  split; [vm_compute; reflexivity|].
  split; [exact Pd|]. split; [exact Ps|].
  exact (@strip_idempotent_quotes_paired content Pd Ps).
Defined.

(** * Further properties *)

(** ** Sums and maxima *)

Lemma fold_left_add_shift (l : list Z) (a : Z) :
  fold_left Z.add l a = (a + fold_left Z.add l 0)%Z.
Proof.
  revert a; induction l as [|x l IH]; intros a; simpl; [lia|].
  rewrite (IH (a + x)%Z), (IH x). lia.
Qed.

Lemma sum_cons (x : Z) (l : list Z) : sum (x :: l) = (x + sum l)%Z.
Proof. unfold sum. simpl. apply fold_left_add_shift. Qed.

Lemma sum_app (l1 l2 : list Z) : sum (l1 ++ l2) = (sum l1 + sum l2)%Z.
Proof.
  induction l1 as [|x l1 IH]; [reflexivity|].
  change ((x :: l1) ++ l2) with (x :: (l1 ++ l2)). rewrite !sum_cons, IH. lia.
Qed.

Lemma count_if_cons (cond : FileMetrics -> bool) (fm : FileMetrics)
  (fms : list FileMetrics) :
  count_if cond (fm :: fms)
  = ((if cond fm then 1 else 0) + count_if cond fms)%Z.
Proof.
  unfold count_if. cbn [filter]. destruct (cond fm); [|lia].
  cbn [map]. apply sum_cons.
Qed.

Lemma count_if_nonneg (cond : FileMetrics -> bool) (fms : list FileMetrics) :
  (0 <= count_if cond fms)%Z.
Proof.
  induction fms as [|fm fms IH]; [reflexivity|].
  rewrite count_if_cons. destruct (cond fm); lia.
Qed.

Lemma count_if_pos (cond : FileMetrics -> bool) (fms : list FileMetrics) :
  (0 < count_if cond fms)%Z <-> exists fm, In fm fms /\ cond fm = true.
Proof.
  induction fms as [|fm fms IH].
  - split; [intros H; discriminate H|intros (fm & [] & _)].
  - rewrite count_if_cons. pose proof (count_if_nonneg cond fms) as Hn.
    split.
    + intros H. destruct (cond fm) eqn:E.
      * exists fm; split; [left; reflexivity|assumption].
      * destruct (proj1 IH ltac:(lia)) as (x & Hx & Hc).
        exists x; split; [right; assumption|assumption].
    + intros (x & [<-|Hx] & Hc).
      * rewrite Hc. lia.
      * assert (0 < count_if cond fms)%Z by (apply IH; eauto).
        destruct (cond fm); lia.
Qed.

Lemma fold_left_max_ge (l : list Z) (a : Z) :
  (a <= fold_left Z.max l a)%Z
  /\ (forall x, In x l -> (x <= fold_left Z.max l a)%Z)
  /\ (fold_left Z.max l a = a \/ In (fold_left Z.max l a) l).
Proof.
  revert a; induction l as [|y l IH]; intros a; simpl.
  - repeat split; [lia|intros x []|left; reflexivity].
  - destruct (IH (Z.max a y)) as (H1 & H2 & H3). repeat split.
    + lia.
    + intros x [<-|Hx]; [lia|apply H2, Hx].
    + destruct H3 as [H3|H3]; [|right; right; exact H3].
      rewrite H3. destruct (Z.max_spec a y) as [[_ ->]|[_ ->]]; auto.
Qed.

(** [max_of] of a non-empty list is its greatest element. *)
Lemma max_of_spec (x : Z) (l : list Z) :
  In (max_of (x :: l)) (x :: l)
  /\ (forall y, In y (x :: l) -> (y <= max_of (x :: l))%Z).
Proof.
  unfold max_of. destruct (fold_left_max_ge l x) as (H1 & H2 & H3). split.
  - destruct H3 as [->|H3]; [left; reflexivity|right; exact H3].
  - intros y [<-|Hy]; [exact H1|apply H2, Hy].
Qed.

(** ** The chart, the status and the warnings of the reports *)

(** X1. The three counts of the chart split the records: every record,
    the zeroed one of a file that could not be read included, is counted in
    exactly one of low, medium and high. *)
Theorem chart_counts_partition (metrics : ProjectMetrics) :
  (low_complexity metrics + medium_complexity metrics + high_complexity metrics)%Z
  = Z.of_nat (length (files_metrics metrics)).
Proof.
  unfold low_complexity, medium_complexity, high_complexity.
  induction (files_metrics metrics) as [|fm fms IH]; [reflexivity|].
  rewrite !count_if_cons. cbn [length].
  destruct (Z.leb_spec (cyclomatic_complexity fm) 10),
           (Z.ltb_spec 10 (cyclomatic_complexity fm)),
           (Z.leb_spec (cyclomatic_complexity fm) 20),
           (Z.ltb_spec 20 (cyclomatic_complexity fm)); cbn [andb]; lia.
Qed.

Lemma count_if_zero (cond : FileMetrics -> bool) (fms : list FileMetrics) :
  count_if cond fms = 0%Z <-> forall fm, In fm fms -> cond fm = false.
Proof.
  pose proof (count_if_nonneg cond fms) as Hn.
  pose proof (count_if_pos cond fms) as Hp. split.
  - intros H fm Hin. destruct (cond fm) eqn:E; [|reflexivity].
    assert (0 < count_if cond fms)%Z by (apply Hp; eauto). lia.
  - intros H. destruct (Z.eq_dec (count_if cond fms) 0) as [|Hne]; [assumption|].
    destruct (proj1 Hp ltac:(lia)) as (fm & Hin & Hc).
    rewrite (H fm Hin) in Hc. discriminate.
Qed.

Lemma count_if_length (cond : FileMetrics -> bool) (fms : list FileMetrics) :
  count_if cond fms = Z.of_nat (length (filter cond fms)).
Proof.
  induction fms as [|fm fms IH]; [reflexivity|].
  rewrite count_if_cons, IH. cbn [filter].
  destruct (cond fm); cbn [length]; lia.
Qed.

(** The greatest complexity above 0 bounds every complexity, and is that of
    a record unless it is 0. *)
Lemma max_complexities_spec (fms : list FileMetrics) :
  let m := match complexities fms with
           | [] => 0%Z
           | _ :: _ => max_of (complexities fms)
           end in
  (0 <= m)%Z
  /\ (forall fm, In fm fms -> (cyclomatic_complexity fm <= m)%Z)
  /\ (m = 0%Z \/ exists fm, In fm fms /\ cyclomatic_complexity fm = m).
Proof.
  intros m. subst m. unfold complexities.
  destruct (map cyclomatic_complexity
              (filter (fun fm => (0 <? cyclomatic_complexity fm)%Z) fms))
    as [|x cs] eqn:E.
  - repeat split; [lia| |left; reflexivity].
    intros fm Hin.
    destruct (Z.ltb_spec 0 (cyclomatic_complexity fm)) as [Hpos|]; [|assumption].
    assert (Hf : In (cyclomatic_complexity fm)
                    (map cyclomatic_complexity
                       (filter (fun fm => (0 <? cyclomatic_complexity fm)%Z) fms))).
    { apply in_map, filter_In. split; [assumption|].
      apply Z.ltb_lt; assumption. }
    rewrite E in Hf. destruct Hf.
  - destruct (max_of_spec x cs) as [Hin Hmax].
    assert (Hpos : forall y, In y (x :: cs) -> (0 < y)%Z).
    { intros y Hy. rewrite <- E in Hy. apply in_map_iff in Hy as (fm & <- & Hf).
      apply filter_In in Hf as [_ Hf]. apply Z.ltb_lt; assumption. }
    repeat split.
    + specialize (Hpos _ Hin). lia.
    + intros fm Hfm.
      destruct (Z.ltb_spec 0 (cyclomatic_complexity fm)) as [Hp|Hp].
      * apply Hmax. rewrite <- E. apply in_map, filter_In.
        split; [assumption|apply Z.ltb_lt; assumption].
      * specialize (Hpos _ Hin). lia.
    + right.
      assert (Hin' : In (max_of (x :: cs))
                        (map cyclomatic_complexity
                           (filter (fun fm => (0 <? cyclomatic_complexity fm)%Z)
                                   fms)))
        by (rewrite E; exact Hin).
      apply in_map_iff in Hin' as (fm & Efm & Hf).
      apply filter_In in Hf as [Hf _]. exists fm; split; assumption.
Qed.

Lemma max_complexity_analyze_project (files : list (text * option text)) :
  max_complexity (analyze_project files)
  = match complexities (files_metrics (analyze_project files)) with
    | [] => 0%Z
    | _ :: _ => max_of (complexities (files_metrics (analyze_project files)))
    end.
Proof. destruct files; reflexivity. Qed.

Lemma analyze_project_max_spec (files : list (text * option text)) :
  (0 <= max_complexity (analyze_project files))%Z
  /\ (forall fm, In fm (files_metrics (analyze_project files)) ->
       (cyclomatic_complexity fm <= max_complexity (analyze_project files))%Z)
  /\ (max_complexity (analyze_project files) = 0%Z
      \/ exists fm, In fm (files_metrics (analyze_project files))
                    /\ cyclomatic_complexity fm
                       = max_complexity (analyze_project files)).
Proof.
  rewrite max_complexity_analyze_project.
  apply (max_complexities_spec (files_metrics (analyze_project files))).
Qed.

(** X2. For the metrics of a project, the status shown next to the greatest
    complexity agrees with the chart: it is [danger] exactly when some record
    is counted high, and [success] exactly when none is counted medium or
    high. *)
Theorem overall_status_agrees_with_chart (files : list (text * option text)) :
  let metrics := analyze_project files in
  (overall_status metrics = Danger <-> (0 < high_complexity metrics)%Z)
  /\ (overall_status metrics = Success
      <-> medium_complexity metrics = 0%Z /\ high_complexity metrics = 0%Z).
Proof.
  intros metrics.
  destruct (analyze_project_max_spec files) as (H0 & Hle & Hat).
  fold metrics in H0, Hle, Hat.
  unfold overall_status, high_complexity, medium_complexity. split.
  - rewrite count_if_pos. split.
    + intros Hs.
      destruct (Z.leb_spec (max_complexity metrics) 10); [discriminate|].
      destruct (Z.leb_spec (max_complexity metrics) 20); [discriminate|].
      destruct Hat as [Hz|(fm & Hin & Efm)]; [lia|].
      exists fm; split; [assumption|apply Z.ltb_lt; lia].
    + intros (fm & Hin & Hc). apply Z.ltb_lt in Hc. specialize (Hle fm Hin).
      destruct (Z.leb_spec (max_complexity metrics) 10); [lia|].
      destruct (Z.leb_spec (max_complexity metrics) 20); [lia|reflexivity].
  - rewrite !count_if_zero. split.
    + intros Hs.
      destruct (Z.leb_spec (max_complexity metrics) 10) as [Hm|];
        [|destruct (Z.leb_spec (max_complexity metrics) 20); discriminate].
      split; intros fm Hin; specialize (Hle fm Hin).
      * destruct (Z.ltb_spec 10 (cyclomatic_complexity fm)); [lia|reflexivity].
      * apply Z.ltb_ge. lia.
    + intros [Hmed Hhigh].
      destruct (Z.leb_spec (max_complexity metrics) 10) as [|Hm]; [reflexivity|].
      destruct Hat as [Hz|(fm & Hin & Efm)]; [lia|].
      specialize (Hmed fm Hin). specialize (Hhigh fm Hin).
      apply Z.ltb_ge in Hhigh.
      destruct (Z.ltb_spec 10 (cyclomatic_complexity fm)); [|lia].
      destruct (Z.leb_spec (cyclomatic_complexity fm) 20); [discriminate|lia].
Qed.

(** X3. The greatest complexity of a project bounds the complexity of every
    record; when some file could be read it is at least 1 and is the
    complexity of one of the records, and when none could it is 0. *)
Theorem max_complexity_is_greatest (files : list (text * option text)) :
  let metrics := analyze_project files in
  (forall fm, In fm (files_metrics metrics) ->
              (cyclomatic_complexity fm <= max_complexity metrics)%Z)
  /\ (readable_contents files <> [] ->
      (1 <= max_complexity metrics)%Z
      /\ exists fm, In fm (files_metrics metrics)
                    /\ cyclomatic_complexity fm = max_complexity metrics)
  /\ (readable_contents files = [] -> max_complexity metrics = 0%Z).
Proof.
  intros metrics.
  destruct (analyze_project_max_spec files) as (H0 & Hle & Hat).
  fold metrics in H0, Hle, Hat.
  assert (Ecs : complexities (files_metrics metrics)
                = map calculate_cyclomatic_complexity (readable_contents files)).
  { unfold metrics. rewrite files_metrics_analyze_project.
    apply complexities_readable. }
  split; [exact Hle|split].
  - intros Hne.
    assert (Hge : (1 <= max_complexity metrics)%Z).
    { unfold metrics. rewrite max_complexity_analyze_project. fold metrics.
      rewrite Ecs. destruct (readable_contents files) as [|c cs]; [congruence|].
      cbn [map]. destruct (max_of_spec (calculate_cyclomatic_complexity c)
                             (map calculate_cyclomatic_complexity cs)) as [_ Hm].
      pose proof (calculate_cyclomatic_complexity_ge_1 c).
      specialize (Hm _ (or_introl eq_refl)). lia. }
    split; [exact Hge|]. destruct Hat as [Hz|Hex]; [lia|exact Hex].
  - intros Hnone. unfold metrics. rewrite max_complexity_analyze_project.
    fold metrics. rewrite Ecs, Hnone. reflexivity.
Qed.

(** X4. With the threshold 10, the default of [main], the files warned
    about are as many as the chart counts medium and high together; with the
    threshold 20 they are as many as it counts high. *)
Theorem default_threshold_warns_medium_and_high (metrics : ProjectMetrics) :
  Z.of_nat (length (high_complexity_files 10 metrics))
  = (medium_complexity metrics + high_complexity metrics)%Z
  /\ Z.of_nat (length (high_complexity_files 20 metrics))
     = high_complexity metrics.
Proof.
  unfold high_complexity_files, medium_complexity, high_complexity. split.
  - induction (files_metrics metrics) as [|fm fms IH]; [reflexivity|].
    rewrite !count_if_cons. cbn [filter].
    destruct (Z.ltb_spec 10 (cyclomatic_complexity fm)),
             (Z.leb_spec (cyclomatic_complexity fm) 20),
             (Z.ltb_spec 20 (cyclomatic_complexity fm));
      cbn [andb length]; lia.
  - symmetry. apply count_if_length.
Qed.

(** ** The table of the reports *)

Lemma insert_by_complexity_perm (fm : FileMetrics) (l : list FileMetrics) :
  Permutation (fm :: l) (insert_by_complexity fm l).
Proof.
  induction l as [|x l IH]; [apply Permutation_refl|]. cbn [insert_by_complexity].
  destruct (cyclomatic_complexity fm <? cyclomatic_complexity x)%Z.
  - apply perm_trans with (x :: fm :: l); [apply perm_swap|].
    apply perm_skip, IH.
  - apply Permutation_refl.
Qed.

Lemma sorted_files_perm (metrics : ProjectMetrics) :
  Permutation (files_metrics metrics) (sorted_files metrics).
Proof.
  unfold sorted_files. induction (files_metrics metrics) as [|fm fms IH].
  - apply perm_nil.
  - cbn [fold_right]. eapply perm_trans; [|apply insert_by_complexity_perm].
    apply perm_skip, IH.
Qed.

Lemma insert_by_complexity_sorted (fm : FileMetrics) (l : list FileMetrics) :
  Sorted (fun a b => (cyclomatic_complexity b <= cyclomatic_complexity a)%Z) l ->
  Sorted (fun a b => (cyclomatic_complexity b <= cyclomatic_complexity a)%Z)
         (insert_by_complexity fm l).
Proof.
  induction l as [|x l IH]; intros H.
  - repeat constructor.
  - cbn [insert_by_complexity].
    destruct (Z.ltb_spec (cyclomatic_complexity fm) (cyclomatic_complexity x)).
    + inversion H as [|? ? Hs Hh]; subst. constructor; [apply IH, Hs|].
      destruct l as [|y l]; cbn [insert_by_complexity].
      * constructor; lia.
      * inversion Hh; subst.
        destruct (cyclomatic_complexity fm <? cyclomatic_complexity y)%Z;
          constructor; lia.
    + constructor; [assumption|constructor; lia].
Qed.

Lemma sorted_files_sorted (metrics : ProjectMetrics) :
  StronglySorted
    (fun a b => (cyclomatic_complexity b <= cyclomatic_complexity a)%Z)
    (sorted_files metrics).
Proof.
  apply Sorted_StronglySorted; [intros a b c Hab Hbc; lia|].
  unfold sorted_files. induction (files_metrics metrics) as [|fm fms IH].
  - constructor.
  - cbn [fold_right]. apply insert_by_complexity_sorted, IH.
Qed.

Lemma filter_perm {A : Type} (f : A -> bool) (l l' : list A) :
  Permutation l l' -> Permutation (filter f l) (filter f l').
Proof.
  induction 1 as [|x l l' _ IH|x y l|l l' l'' _ IH1 _ IH2]; cbn [filter].
  - apply perm_nil.
  - destruct (f x); [apply perm_skip|]; exact IH.
  - destruct (f x), (f y); try apply Permutation_refl. apply perm_swap.
  - eapply perm_trans; eassumption.
Qed.

Lemma filter_strongly_sorted {A : Type} (R : A -> A -> Prop) (f : A -> bool)
  (l : list A) :
  StronglySorted R l -> StronglySorted R (filter f l).
Proof.
  induction 1 as [|x l _ IH Hall]; cbn [filter]; [constructor|].
  destruct (f x); [|exact IH]. constructor; [exact IH|].
  apply Forall_forall. intros y Hy. apply filter_In in Hy as [Hy _].
  rewrite Forall_forall in Hall. apply Hall, Hy.
Qed.

Lemma map_snd_files_rows (metrics : ProjectMetrics) :
  map snd (files_rows metrics)
  = filter (fun fm => (0 <? cyclomatic_complexity fm)%Z) (sorted_files metrics).
Proof.
  unfold files_rows. rewrite map_map. cbn [snd]. apply map_id.
Qed.

(** X5. The table of a report lists the records with a complexity above 0,
    each once, in the order of falling complexity; for the metrics of a
    project these are as many as the files that could be read. *)
Theorem table_lists_readable_files_by_complexity
  (files : list (text * option text)) :
  let metrics := analyze_project files in
  let rows := map snd (files_rows metrics) in
  Permutation rows
    (filter (fun fm => (0 <? cyclomatic_complexity fm)%Z) (files_metrics metrics))
  /\ StronglySorted
       (fun a b => (cyclomatic_complexity b <= cyclomatic_complexity a)%Z) rows
  /\ length rows = length (readable_contents files).
Proof.
  intros metrics rows. subst rows. rewrite map_snd_files_rows.
  assert (P : Permutation
                (filter (fun fm => (0 <? cyclomatic_complexity fm)%Z)
                        (sorted_files metrics))
                (filter (fun fm => (0 <? cyclomatic_complexity fm)%Z)
                        (files_metrics metrics)))
    by (apply filter_perm, Permutation_sym, sorted_files_perm).
  split; [exact P|split].
  - apply filter_strongly_sorted, sorted_files_sorted.
  - rewrite (Permutation_length P).
    pose proof (complexities_readable files) as E.
    rewrite <- files_metrics_analyze_project in E. fold metrics in E.
    apply (f_equal (@length Z)) in E. unfold complexities in E.
    rewrite !length_map in E. exact E.
Qed.

Lemma analyze_file_complexity_le_0 (filepath : text) (file : option text) :
  (cyclomatic_complexity (analyze_file filepath file) <=? 0)%Z
  = match file with Some _ => false | None => true end.
Proof.
  destruct file as [content|]; [|reflexivity].
  rewrite analyze_file_complexity_some.
  pose proof (calculate_cyclomatic_complexity_ge_1 content).
  apply Z.leb_gt. lia.
Qed.

(** X6. The chart and the table of a report differ on the files that could
    not be read: the chart counts them low, the table leaves them out.  So
    the low count is the number of [success] rows plus the number of files
    that could not be read. *)
Theorem chart_counts_unreadable_files_low (files : list (text * option text)) :
  let metrics := analyze_project files in
  low_complexity metrics
  = (Z.of_nat (length (filter (fun row => match fst row with
                                          | Success => true
                                          | _ => false
                                          end)
                              (files_rows metrics)))
     + Z.of_nat (length (filter (fun f => match snd f with
                                          | None => true
                                          | Some _ => false
                                          end)
                                files)))%Z.
Proof.
  intros metrics.
  set (pos := fun fm => (0 <? cyclomatic_complexity fm)%Z).
  set (low := fun fm => (cyclomatic_complexity fm <=? 10)%Z).
  assert (Erows : length (filter (fun row => match fst row with
                                             | Success => true
                                             | _ => false
                                             end)
                                 (files_rows metrics))
                  = length (filter low (filter pos (files_metrics metrics)))).
  { unfold files_rows. fold pos.
    rewrite (Permutation_length
               (filter_perm low (filter_perm pos (sorted_files_perm metrics)))).
    induction (filter pos (sorted_files metrics)) as [|fm l IH]; [reflexivity|].
    cbn [map filter fst]. unfold row_class at 1, low at 1.
    destruct (Z.ltb_spec 20 (cyclomatic_complexity fm)),
             (Z.ltb_spec 10 (cyclomatic_complexity fm)),
             (Z.leb_spec (cyclomatic_complexity fm) 10);
      try lia; cbn [length]; rewrite ?IH; reflexivity. }
  rewrite Erows. unfold low_complexity. fold low. rewrite count_if_length.
  unfold metrics. rewrite files_metrics_analyze_project.
  clear. induction files as [|[path file] files IH]; [reflexivity|].
  cbn [map fst snd]. destruct file as [content|].
  - assert (Hpos : pos (analyze_file path (Some content)) = true).
    { unfold pos. rewrite analyze_file_complexity_some. apply Z.ltb_lt.
      pose proof (calculate_cyclomatic_complexity_ge_1 content). lia. }
    cbn [filter snd]. rewrite Hpos. cbn [filter].
    destruct (low (analyze_file path (Some content))); cbn [length]; lia.
  - change (analyze_file path None) with (zeroed path).
    change (low (zeroed path)) with true. change (pos (zeroed path)) with false.
    cbn [filter snd length]. change (low (zeroed path)) with true.
    change (pos (zeroed path)) with false. cbn [length]. lia.
Qed.

(** ** The totals of a project *)

Lemma analyze_file_lines (filepath : text) (file : option text) :
  (lines_of_code (analyze_file filepath file)
   + lines_of_comments (analyze_file filepath file)
   + blank_lines (analyze_file filepath file))%Z
  = match file with
    | Some content => Z.of_nat (length (readlines content))
    | None => 0%Z
    end.
Proof.
  destruct file as [content|]; [|reflexivity].
  unfold analyze_file, count_lines.
  pose proof (fold_count_line_counted (readlines content)
                (LineCounts 0 0 0 false)) as H.
  unfold counted in H. cbn [loc comments blank] in H.
  cbn [lines_of_code lines_of_comments blank_lines]. rewrite H. lia.
Qed.

(** X7. The three line totals of a project add up to the number of physical
    lines of the files that could be read: no line of a project is counted
    twice or left out, and a file that could not be read adds nothing. *)
Theorem project_totals_partition_lines (files : list (text * option text)) :
  let metrics := analyze_project files in
  (total_loc metrics + total_comments metrics + total_blank_lines metrics)%Z
  = sum (map (fun content => Z.of_nat (length (readlines content)))
             (readable_contents files)).
Proof.
  intros metrics.
  assert (E : (total_loc metrics + total_comments metrics
               + total_blank_lines metrics)%Z
              = (sum (map lines_of_code (files_metrics metrics))
                 + sum (map lines_of_comments (files_metrics metrics))
                 + sum (map blank_lines (files_metrics metrics)))%Z)
    by (unfold metrics; destruct files; reflexivity).
  rewrite E. unfold metrics. rewrite files_metrics_analyze_project.
  clear. induction files as [|[path file] files IH]; [reflexivity|].
  cbn [map fst snd]. rewrite !sum_cons.
  pose proof (analyze_file_lines path file) as H.
  unfold readable_contents. cbn [flat_map snd]. fold (readable_contents files).
  rewrite map_app, sum_app, <- IH.
  destruct file as [content|]; cbn [map].
  - rewrite sum_cons. change (sum []) with 0%Z. lia.
  - change (sum []) with 0%Z. lia.
Qed.

(** ** The records of the function extractor *)

Lemma find_line_invariant (st : find_state) (line : text) (n : nat) :
  find_invariant st n -> find_invariant (find_line st line) (S n).
Proof.
  intros (Hrec & Hsum & Hcur).
  assert (Hcont : forall name, current_function st = Some name ->
            find_invariant
              (if (brace_count st + net_braces line <=? 0)%Z
               then FindState
                      (functions st ++
                         [(name,
                           calculate_cyclomatic_complexity
                             (join_lines (function_content st ++ [line])),
                           Z.of_nat (length (function_content st ++ [line])))])
                      None 0%Z []
               else FindState (functions st) (Some name)
                              (brace_count st + net_braces line)%Z
                              (function_content st ++ [line]))
              (S n)).
  { intros name Ec. rewrite Ec in Hcur.
    destruct (brace_count st + net_braces line <=? 0)%Z; unfold find_invariant;
      cbn [functions function_content current_function];
      rewrite ?length_app in *; cbn [length] in *.
    - split; [|split; [|reflexivity]].
      + intros r Hr. apply in_app_iff in Hr as [Hr|[<-|[]]]; [apply Hrec, Hr|].
        unfold record_complexity, record_lines; cbn [fst snd].
        pose proof (calculate_cyclomatic_complexity_ge_1
                      (join_lines (function_content st ++ [line]))).
        split; lia.
      + rewrite map_app, sum_app. cbn [map]. rewrite sum_cons.
        change (sum []) with 0%Z. unfold record_lines at 2; cbn [snd]. lia.
    - split; [exact Hrec|split; lia]. }
  unfold find_line.
  destruct (re_search function_pattern line) as [m|],
           (current_function st) as [name|] eqn:Ec.
  - exact (Hcont name eq_refl).
  - unfold find_invariant. cbn [functions function_content current_function].
    rewrite Hcur in Hsum. cbn [length] in *.
    split; [exact Hrec|split; lia].
  - exact (Hcont name eq_refl).
  - unfold find_invariant. rewrite Ec.
    split; [exact Hrec|split; [lia|exact Hcur]].
Qed.

Lemma fold_find_line_invariant (lines : list text) (st : find_state) (n : nat) :
  find_invariant st n ->
  find_invariant (fold_left find_line lines st) (n + length lines).
Proof.
  revert st n; induction lines as [|line lines IH]; intros st n H.
  - rewrite Nat.add_0_r. exact H.
  - cbn [fold_left length]. replace (n + S (length lines)) with (S n + length lines)
      by lia.
    apply IH, find_line_invariant, H.
Qed.

Lemma find_functions_invariant (content : text) :
  find_invariant
    (fold_left find_line (split_lines (remove_comments_and_strings content))
               (FindState [] None 0%Z []))
    (length (split_lines (remove_comments_and_strings content))).
Proof.
  apply (@fold_find_line_invariant _ (FindState [] None 0%Z []) 0).
  split; [intros r []|split; [reflexivity|reflexivity]].
Qed.

(** X8. Every function that [find_functions] records has a complexity of 1
    or more and a body of 2 lines or more: the line that closes a function
    is never its header line. *)
Theorem recorded_function_has_two_lines (content : text) (r : function_record) :
  In r (find_functions content) ->
  (1 <= record_complexity r)%Z /\ (2 <= record_lines r)%Z.
Proof.
  destruct (find_functions_invariant content) as (Hrec & _ & _).
  apply Hrec.
Qed.

Lemma recorded_function_has_two_lines_witness :
  let content := add_line ++ [NL] ++ T "int sub(int a, int b) {" ++ [NL]
                 ++ T "  return a - b;" ++ [NL] ++ T "}" ++ [NL] in
  let r := (T "add", 1%Z, 4%Z) in
  In r (find_functions content)
  /\ (1 <= record_complexity r)%Z /\ (2 <= record_lines r)%Z.
Proof.
  intros content r.
  assert (H : In r (find_functions content)) by (vm_compute; left; reflexivity).
  split; [exact H|].
  exact (@recorded_function_has_two_lines content r H).
Defined.

(** X9. The bodies that [find_functions] records do not overlap: their line
    counts add up to at most the number of lines of the stripped text. *)
Theorem recorded_bodies_do_not_overlap (content : text) :
  (sum (map record_lines (find_functions content))
   <= Z.of_nat (length (split_lines (remove_comments_and_strings content))))%Z.
Proof.
  destruct (find_functions_invariant content) as (_ & Hsum & _).
  unfold find_functions. cbv zeta. lia.
Qed.

(** X10. For a file that could be read, the greatest function complexity is
    0 exactly when no function was found; otherwise it is the complexity of
    one of the functions found and bounds that of each. *)
Theorem max_function_complexity_is_greatest (filepath content : text) :
  let fm := analyze_file filepath (Some content) in
  let fs := find_functions content in
  functions_count fm = Z.of_nat (length fs)
  /\ (max_function_complexity fm = 0%Z <-> fs = [])
  /\ (forall r, In r fs -> (record_complexity r <= max_function_complexity fm)%Z)
  /\ (fs <> [] ->
      exists r, In r fs /\ record_complexity r = max_function_complexity fm).
Proof.
  intros fm fs. subst fm. unfold analyze_file.
  destruct (count_lines (Some content)) as [[l c] b].
  cbn [functions_count max_function_complexity]. fold fs.
  assert (Hrec : forall r, In r fs -> (1 <= record_complexity r)%Z).
  { intros r Hr. destruct (find_functions_invariant content) as (H & _ & _).
    apply H, Hr. }
  destruct fs as [|r0 fs'] eqn:Efs.
  - split; [reflexivity|split; [tauto|split; [intros r []|congruence]]].
  - cbn [map].
    destruct (max_of_spec (snd (fst r0)) (map (fun f => snd (fst f)) fs'))
      as [Hin Hmax].
    change (snd (fst r0) :: map (fun f => snd (fst f)) fs')
      with (map record_complexity (r0 :: fs')) in Hin, Hmax.
    apply in_map_iff in Hin as (r & Er & Hr).
    split; [reflexivity|split; [|split]].
    + split; [|discriminate]. intros Hz. specialize (Hrec r Hr).
      change (max_of (snd (fst r0) :: map (fun f => snd (fst f)) fs'))
        with (max_of (map record_complexity (r0 :: fs'))) in Hz. lia.
    + intros r' Hr'. apply Hmax, in_map, Hr'.
    + intros _. exists r. split; [exact Hr|exact Er].
Qed.

(** ** What a match implies about the text *)

Lemma star_loop_suffix (step : mstate -> list mstate) :
  (forall s s', In s' (step s) -> exists w, rest s = w ++ rest s') ->
  forall fuel s s', In s' (star_loop step fuel s) ->
  exists w, rest s = w ++ rest s'.
Proof.
  intros Hstep. induction fuel as [|fuel IH]; intros s s' H; cbn [star_loop] in H.
  - destruct H as [<-|[]]. exists []; reflexivity.
  - apply in_app_iff in H as [H|[<-|[]]]; [|exists []; reflexivity].
    apply in_flat_map in H as (s1 & H1 & H2).
    destruct (length (rest s1) <? length (rest s)); [|destruct H2].
    destruct (Hstep _ _ H1) as [w1 E1]. destruct (IH _ _ H2) as [w2 E2].
    exists (w1 ++ w2). rewrite E1, E2, app_assoc. reflexivity.
Qed.

(** A match ends at a suffix of the text it starts from. *)
Lemma matches_suffix (r : regex) :
  forall s s', In s' (matches r s) -> exists w, rest s = w ++ rest s'.
Proof.
  induction r as [|p|a IHa b IHb|a IHa b IHb|a IHa|m|m| |a IHa];
    intros s s' H; cbn [matches] in H.
  - destruct H as [<-|[]]. exists []; reflexivity.
  - destruct (rest s) as [|c tl] eqn:E; [destruct H|].
    destruct (p c); [|destruct H]. destruct H as [<-|[]].
    exists [c]; reflexivity.
  - apply in_flat_map in H as (s1 & H1 & H2).
    destruct (IHa _ _ H1) as [w1 E1]. destruct (IHb _ _ H2) as [w2 E2].
    exists (w1 ++ w2). rewrite E1, E2, app_assoc. reflexivity.
  - apply in_app_iff in H as [H|H]; [apply IHa, H|apply IHb, H].
  - apply (@star_loop_suffix (matches a) IHa) in H. exact H.
  - destruct (at_bol m s); [|destruct H]. destruct H as [<-|[]].
    exists []; reflexivity.
  - destruct (at_eol m s); [|destruct H]. destruct H as [<-|[]].
    exists []; reflexivity.
  - destruct (at_wordb s); [|destruct H]. destruct H as [<-|[]].
    exists []; reflexivity.
  - apply in_map_iff in H as (s1 & <- & H1). cbn [rest]. apply IHa, H1.
Qed.

Lemma needs_ch (c : ascii) : needs c (ch c).
Proof.
  intros s s' H. cbn in H. destruct (rest s) as [|x tl]; [destruct H|].
  destruct (Ascii.eqb_spec c x) as [<-|]; [|destruct H].
  cbn. rewrite Ascii.eqb_refl. reflexivity.
Qed.

Lemma needs_seq (c : ascii) (a b : regex) : needs c b -> needs c (Seq a b).
Proof.
  intros Hb s s' H. cbn [matches] in H.
  apply in_flat_map in H as (s1 & H1 & H2).
  destruct (@matches_suffix a s s1 H1) as [w E]. rewrite E, mem_app.
  rewrite (Hb _ _ H2). apply orb_true_r.
Qed.

(** The function header needs an opening brace. *)
Lemma function_pattern_needs_brace : needs "{" function_pattern.
Proof. unfold function_pattern. repeat apply needs_seq. apply needs_ch. Qed.

Lemma search_from_needs (c : ascii) (r : regex) :
  needs c r ->
  forall t p pos, mem c t = false -> search_from r p pos t = None.
Proof.
  intros Hr. induction t as [|x t IH]; intros p pos Hc; cbn [search_from].
  - unfold first_match. destruct (matches r (MState p [] None)) as [|s' l] eqn:E;
      [reflexivity|].
    specialize (Hr (MState p [] None) s'). rewrite E in Hr.
    specialize (Hr (or_introl eq_refl)). discriminate.
  - unfold first_match.
    destruct (matches r (MState p (x :: t) None)) as [|s' l] eqn:E.
    + cbn [hd_error]. apply IH. cbn [mem existsb] in Hc.
      apply orb_false_elim in Hc as [_ Hc]. exact Hc.
    + specialize (Hr (MState p (x :: t) None) s'). rewrite E in Hr.
      specialize (Hr (or_introl eq_refl)). cbn [rest] in Hr. congruence.
Qed.

Lemma split_lines_mem (c : ascii) (t : text) :
  mem c t = false -> Forall (fun line => mem c line = false) (split_lines t).
Proof.
  induction t as [|x t IH]; intros H; cbn [split_lines].
  - repeat constructor.
  - cbn [mem existsb] in H. apply orb_false_elim in H as [Hx H].
    specialize (IH H). destruct (Ascii.eqb x NL).
    + constructor; [reflexivity|exact IH].
    + destruct (split_lines t) as [|l ls]; [repeat constructor; cbn; rewrite Hx;
                                            reflexivity|].
      inversion IH; subst. constructor; [|assumption].
      cbn [mem existsb]. rewrite Hx. assumption.
Qed.

Lemma find_functions_without_brace (content : text) :
  mem "{" (remove_comments_and_strings content) = false ->
  find_functions content = [].
Proof.
  intros H. unfold find_functions. cbv zeta.
  apply split_lines_mem in H.
  induction H as [|line lines Hline _ IH]; [reflexivity|].
  cbn [fold_left]. unfold find_line at 2.
  unfold re_search.
  rewrite (search_from_needs function_pattern_needs_brace line None 0 Hline).
  cbn [current_function]. exact IH.
Qed.

(** X11. A text that, once stripped, holds no opening brace has no function:
    declarations, prototypes and braces inside comments or literals open
    nothing. *)
Theorem no_brace_no_function (content : text) :
  mem "{" (remove_comments_and_strings content) = false ->
  find_functions content = [].
Proof. apply find_functions_without_brace. Qed.

Lemma no_brace_no_function_witness :
  let content := T "int add(int a, int b);" ++ [NL] ++ T "// void f() {"
                 ++ [NL] in
  mem "{" (remove_comments_and_strings content) = false
  /\ find_functions content = [].
Proof.
  intros content.
  assert (H : mem "{" (remove_comments_and_strings content) = false)
    by reflexivity.
  split; [exact H|].
  exact (@no_brace_no_function content H).
Defined.

(** ** The names of the functions *)

Lemma in_matches_seq (a b : regex) (s s' : mstate) :
  In s' (matches (Seq a b) s) ->
  exists s1, In s1 (matches a s) /\ In s' (matches b s1).
Proof. cbn [matches]. apply in_flat_map. Qed.

Lemma star_loop_group_free (step : mstate -> list mstate) :
  (forall s s', In s' (step s) -> grp s' = grp s) ->
  forall fuel s s', In s' (star_loop step fuel s) -> grp s' = grp s.
Proof.
  intros Hstep. induction fuel as [|fuel IH]; intros s s' H; cbn [star_loop] in H.
  - destruct H as [<-|[]]. reflexivity.
  - apply in_app_iff in H as [H|[<-|[]]]; [|reflexivity].
    apply in_flat_map in H as (s1 & H1 & H2).
    destruct (length (rest s1) <? length (rest s)); [|destruct H2].
    rewrite (IH _ _ H2). apply Hstep, H1.
Qed.

(** A pattern without capturing group leaves group 1 as it is. *)
Lemma matches_group_free (r : regex) :
  group_free r = true ->
  forall s s', In s' (matches r s) -> grp s' = grp s.
Proof.
  induction r as [|p|a IHa b IHb|a IHa b IHb|a IHa|m|m| |a IHa];
    cbn [group_free]; intros Hg s s' H; cbn [matches] in H.
  - destruct H as [<-|[]]. reflexivity.
  - destruct (rest s) as [|c tl]; [destruct H|].
    destruct (p c); [|destruct H]. destruct H as [<-|[]]. reflexivity.
  - apply andb_prop in Hg as [Ha Hb].
    apply in_flat_map in H as (s1 & H1 & H2).
    rewrite (IHb Hb _ _ H2). apply (IHa Ha), H1.
  - apply andb_prop in Hg as [Ha Hb].
    apply in_app_iff in H as [H|H]; [apply (IHa Ha), H|apply (IHb Hb), H].
  - apply (@star_loop_group_free (matches a) (IHa Hg)) in H. exact H.
  - destruct (at_bol m s); [|destruct H]. destruct H as [<-|[]]. reflexivity.
  - destruct (at_eol m s); [|destruct H]. destruct H as [<-|[]]. reflexivity.
  - destruct (at_wordb s); [|destruct H]. destruct H as [<-|[]]. reflexivity.
  - discriminate.
Qed.

Lemma matches_chr_consumed (p : ascii -> bool) (s s' : mstate) :
  In s' (matches (Chr p) s) -> exists c, rest s = c :: rest s' /\ p c = true.
Proof.
  cbn [matches]. destruct (rest s) as [|c tl]; [intros []|].
  destruct (p c) eqn:E; [|intros []]. intros [<-|[]]. exists c; auto.
Qed.

Lemma star_chr_consumed (p : ascii -> bool) (fuel : nat) :
  forall s s', In s' (star_loop (matches (Chr p)) fuel s) ->
  exists w, rest s = w ++ rest s' /\ forallb p w = true.
Proof.
  induction fuel as [|fuel IH]; intros s s' H; cbn [star_loop] in H.
  - destruct H as [<-|[]]. exists []; auto.
  - apply in_app_iff in H as [H|[<-|[]]]; [|exists []; auto].
    apply in_flat_map in H as (s1 & H1 & H2).
    destruct (length (rest s1) <? length (rest s)); [|destruct H2].
    apply matches_chr_consumed in H1 as (c & E1 & Hc).
    destruct (IH _ _ H2) as (w & E2 & Hw).
    exists (c :: w). rewrite E1, E2. cbn [forallb]. rewrite Hc, Hw. auto.
Qed.

(** What [(\w+)] captures is an identifier. *)
Lemma matches_name_group (s s' : mstate) :
  In s' (matches (Group (Plus word)) s) ->
  exists name, grp s' = Some name /\ is_identifier name = true.
Proof.
  cbn [matches]. intros H. apply in_map_iff in H as (s2 & <- & H).
  change (flat_map (matches (Star word)) (matches word s))
    with (matches (Seq word (Star word)) s) in H.
  apply in_matches_seq in H as (s1 & H1 & H2).
  apply matches_chr_consumed in H1 as (c & E1 & Hc).
  cbn [matches] in H2. apply star_chr_consumed in H2 as (w & E2 & Hw).
  exists (c :: w). cbn [grp rest]. split.
  - rewrite E1, E2.
    change (c :: w ++ rest s2) with ((c :: w) ++ rest s2).
    rewrite length_app.
    replace (length (c :: w) + length (rest s2) - length (rest s2))
      with (length (c :: w)) by lia.
    rewrite firstn_app, Nat.sub_diag, firstn_all. cbn [firstn].
    rewrite app_nil_r. reflexivity.
  - cbn [is_identifier forallb]. rewrite Hc, Hw. reflexivity.
Qed.

Lemma matches_function_pattern_name (s s' : mstate) :
  In s' (matches function_pattern s) ->
  exists name, grp s' = Some name /\ is_identifier name = true.
Proof.
  unfold function_pattern. intros H.
  do 4 (apply in_matches_seq in H as (? & _ & H)).
  apply in_matches_seq in H as (s5 & H5 & H).
  apply matches_name_group in H5 as (name & Eg & Hn).
  apply matches_group_free in H; [|reflexivity].
  exists name. rewrite H. auto.
Qed.

Lemma search_from_function_pattern_name (t : text) :
  forall p pos m, search_from function_pattern p pos t = Some m ->
  is_identifier (group1 m) = true.
Proof.
  induction t as [|c t IH]; intros p pos m; cbn [search_from];
    unfold first_match;
    match goal with
    | |- context [matches function_pattern ?s] =>
        destruct (matches function_pattern s) as [|s' l] eqn:E
    end; cbn [hd_error]; try discriminate; try (apply IH).
  all: intros [= <-]; unfold group1; cbn [m_group1];
    match type of E with
    | matches function_pattern ?s = _ =>
        destruct (@matches_function_pattern_name s s') as (name & -> & Hn);
        [rewrite E; left; reflexivity|exact Hn]
    end.
Qed.

Lemma find_line_names (st : find_state) (line : text) :
  names_invariant st -> names_invariant (find_line st line).
Proof.
  intros [Hrec Hcur].
  assert (Hcont : forall name, current_function st = Some name ->
            names_invariant
              (if (brace_count st + net_braces line <=? 0)%Z
               then FindState
                      (functions st ++
                         [(name,
                           calculate_cyclomatic_complexity
                             (join_lines (function_content st ++ [line])),
                           Z.of_nat (length (function_content st ++ [line])))])
                      None 0%Z []
               else FindState (functions st) (Some name)
                              (brace_count st + net_braces line)%Z
                              (function_content st ++ [line]))).
  { intros name Ec.
    destruct (brace_count st + net_braces line <=? 0)%Z; unfold names_invariant;
      cbn [functions current_function]; split.
    - intros r Hr. apply in_app_iff in Hr as [Hr|[<-|[]]]; [apply Hrec, Hr|].
      cbn [record_name fst]. apply Hcur, Ec.
    - discriminate.
    - exact Hrec.
    - intros name' [= <-]. apply Hcur, Ec. }
  unfold find_line.
  destruct (re_search function_pattern line) as [m|] eqn:Em,
           (current_function st) as [name|] eqn:Ec.
  - exact (Hcont name eq_refl).
  - unfold names_invariant. cbn [functions current_function].
    split; [exact Hrec|]. intros name' [= <-].
    apply (@search_from_function_pattern_name line None 0 m Em).
  - exact (Hcont name eq_refl).
  - unfold names_invariant. rewrite Ec. split; [exact Hrec|discriminate].
Qed.

(** X12. The name of every function that [find_functions] records is an
    identifier: one word character or more. *)
Theorem recorded_function_name_is_identifier (content : text)
  (r : function_record) :
  In r (find_functions content) -> is_identifier (record_name r) = true.
Proof.
  unfold find_functions. cbv zeta.
  assert (H : forall lines st, names_invariant st ->
                               names_invariant (fold_left find_line lines st)).
  { induction lines as [|line lines IH]; intros st Hst; [exact Hst|].
    cbn [fold_left]. apply IH, find_line_names, Hst. }
  apply (H (split_lines (remove_comments_and_strings content))
           (FindState [] None 0%Z [])).
  split; [intros r' []|discriminate].
Qed.

Lemma recorded_function_name_is_identifier_witness :
  let content := T "static const char* name_of(int id) {" ++ [NL]
                 ++ T "  return 0;" ++ [NL] ++ T "}" ++ [NL] in
  let r := (T "name_of", 1%Z, 3%Z) in
  In r (find_functions content) /\ is_identifier (record_name r) = true.
Proof.
  intros content r.
  assert (H : In r (find_functions content)) by (vm_compute; left; reflexivity).
  split; [exact H|].
  exact (@recorded_function_name_is_identifier content r H).
Defined.

(** ** The nesting depth *)

Lemma count_char_cons (c x : ascii) (t : text) :
  count_char c (x :: t)
  = ((if Ascii.eqb c x then 1 else 0) + count_char c t)%Z.
Proof.
  unfold count_char. cbn [filter]. destruct (Ascii.eqb c x); cbn [length]; lia.
Qed.

Lemma count_char_nonneg (c : ascii) (t : text) : (0 <= count_char c t)%Z.
Proof. unfold count_char. lia. Qed.

Lemma fold_nesting_char_bounds (t : text) :
  forall max_depth current_depth,
  (0 <= current_depth <= max_depth)%Z ->
  let st := fold_left nesting_char t (max_depth, current_depth) in
  (0 <= snd st <= fst st)%Z
  /\ (max_depth <= fst st)%Z
  /\ (snd st <= current_depth + count_char "{" t)%Z
  /\ (fst st <= Z.max max_depth (current_depth + count_char "{" t))%Z
  /\ (mem "{" t = true -> (1 <= fst st)%Z).
Proof.
  induction t as [|x t IH]; intros md cd H; cbn [fold_left].
  - cbn. repeat split; try lia; try discriminate.
  - cbv zeta. rewrite count_char_cons. cbn [mem existsb].
    pose proof (count_char_nonneg "{" t) as Hc.
    rewrite (Ascii.eqb_sym "{"%char x).
    destruct (Ascii.eqb x "{") eqn:E1; [|destruct (Ascii.eqb x "}") eqn:E2].
    + assert (En : nesting_char (md, cd) x = (Z.max md (cd + 1), (cd + 1)%Z))
        by (unfold nesting_char; rewrite E1; reflexivity).
      rewrite En.
      specialize (IH (Z.max md (cd + 1)) (cd + 1)%Z ltac:(lia)).
      cbv zeta in IH. destruct IH as (H1 & H2 & H3 & H4 & _).
      repeat split; try lia.
    + assert (En : nesting_char (md, cd) x = (md, Z.max 0 (cd - 1)))
        by (unfold nesting_char; rewrite E1, E2; reflexivity).
      rewrite En.
      specialize (IH md (Z.max 0 (cd - 1)) ltac:(lia)).
      cbv zeta in IH. destruct IH as (H1 & H2 & H3 & H4 & H5).
      repeat split; try lia; try exact H5.
    + assert (En : nesting_char (md, cd) x = (md, cd))
        by (unfold nesting_char; rewrite E1, E2; reflexivity).
      rewrite En. specialize (IH md cd H).
      cbv zeta in IH. destruct IH as (H1 & H2 & H3 & H4 & H5).
      repeat split; try lia; try exact H5.
Qed.

Lemma calculate_nesting_depth_zero (content : text) :
  calculate_nesting_depth content = 0%Z
  <-> mem "{" (remove_comments_and_strings content) = false.
Proof.
  unfold calculate_nesting_depth. cbv zeta.
  destruct (fold_nesting_char_bounds (remove_comments_and_strings content)
              (max_depth := 0) (current_depth := 0) ltac:(lia))
    as (H1 & H2 & H3 & H4 & H5).
  split.
  - intros Hz. destruct (mem "{" (remove_comments_and_strings content));
      [specialize (H5 eq_refl); lia|reflexivity].
  - intros Hm.
    assert (E : count_char "{" (remove_comments_and_strings content) = 0%Z).
    { clear - Hm. induction (remove_comments_and_strings content) as [|x t IH];
        [reflexivity|].
      cbn [mem existsb] in Hm. apply orb_false_elim in Hm as [Hx Hm].
      rewrite count_char_cons, Hx, (IH Hm). reflexivity. }
    rewrite E in H4. lia.
Qed.

(** X13. The nesting depth lies between 0 and the number of opening braces
    of the stripped text, and it is 0 exactly when the stripped text holds
    no opening brace: closing braces alone never add depth. *)
Theorem nesting_depth_bounds (content : text) :
  (0 <= calculate_nesting_depth content
   <= count_char "{" (remove_comments_and_strings content))%Z
  /\ (calculate_nesting_depth content = 0%Z
      <-> mem "{" (remove_comments_and_strings content) = false).
Proof.
  split; [|apply calculate_nesting_depth_zero].
  unfold calculate_nesting_depth. cbv zeta.
  destruct (fold_nesting_char_bounds (remove_comments_and_strings content)
              (max_depth := 0) (current_depth := 0) ltac:(lia))
    as (H1 & H2 & H3 & H4 & H5).
  pose proof (count_char_nonneg "{" (remove_comments_and_strings content)).
  lia.
Qed.

Lemma analyze_file_some_fields (filepath content : text) :
  nested_depth (analyze_file filepath (Some content))
  = calculate_nesting_depth content
  /\ functions_count (analyze_file filepath (Some content))
     = Z.of_nat (length (find_functions content))
  /\ max_function_complexity (analyze_file filepath (Some content))
     = match find_functions content with
       | [] => 0%Z
       | _ :: _ => max_of (map (fun f => snd (fst f)) (find_functions content))
       end.
Proof.
  unfold analyze_file. destruct (count_lines (Some content)) as [[l c] b].
  repeat split.
Qed.

(** X14. A file whose record has nesting depth 0 has no function in its
    record: no function count, no function complexity. *)
Theorem depth_zero_no_function (filepath : text) (file : option text) :
  let fm := analyze_file filepath file in
  nested_depth fm = 0%Z ->
  functions_count fm = 0%Z /\ max_function_complexity fm = 0%Z.
Proof.
  intros fm. subst fm. destruct file as [content|]; [|auto].
  destruct (analyze_file_some_fields filepath content) as (-> & -> & ->).
  intros H. apply calculate_nesting_depth_zero in H.
  rewrite (find_functions_without_brace _ H). auto.
Qed.

Lemma depth_zero_no_function_witness :
  let filepath := T "include/pins.h" in
  let file := Some (T "#define LED 13" ++ [NL] ++ T "void blink(int n);" ++ [NL]) in
  nested_depth (analyze_file filepath file) = 0%Z
  /\ functions_count (analyze_file filepath file) = 0%Z
  /\ max_function_complexity (analyze_file filepath file) = 0%Z.
Proof.
  intros filepath file.
  assert (H : nested_depth (analyze_file filepath file) = 0%Z)
    by (vm_compute; reflexivity).
  split; [exact H|].
  exact (@depth_zero_no_function filepath file H).
Defined.

(** ** More on the stripper *)

Section SubNoLonger.

Variable r : regex.
Variable repl : text.
Variable M : text -> option text.

Hypothesis first_match_M :
  forall p t, option_map rest (first_match r p t) = M t.
Hypothesis M_suffix :
  forall t u, M t = Some u -> exists k, u = skipn (S k) t /\ S k <= length t.

(** A match takes at least as many characters as the replacement has. *)
Hypothesis M_takes :
  forall t u, M t = Some u -> length repl + length u <= length t.

Lemma length_re_sub (t : text) : length (re_sub r repl t) <= length t.
Proof.
  apply (@re_sub_ind r repl M first_match_M M_suffix
           (fun t o => length o <= length t)).
  - reflexivity.
  - intros c tl _ IH. simpl. lia.
  - intros t0 u E IH. rewrite length_app. specialize (M_takes E). lia.
Qed.

End SubNoLonger.

Lemma after_quoted_takes (q : ascii) (t u : text) :
  after_quoted q t = Some u -> length [q; q] + length u <= length t.
Proof.
  unfold after_quoted. destruct t as [|c tl]; [discriminate|].
  destruct (Ascii.eqb q c); [|discriminate]. intros H.
  destruct (closing_split _ _ H) as [mid ->].
  cbn [length]. rewrite length_app. cbn [length]. lia.
Qed.

Lemma after_single_comment_takes (t u : text) :
  after_single_comment t = Some u -> length (@nil ascii) + length u <= length t.
Proof.
  intros H. destruct (after_single_comment_suffix _ H) as [k [-> Hk]].
  rewrite length_skipn. simpl. lia.
Qed.

(** X15. The stripper never makes a text longer. *)
Theorem strip_never_longer (content : text) :
  length (remove_comments_and_strings content) <= length content.
Proof.
  unfold remove_comments_and_strings, remove_strings_and_line_comments.
  pose proof (@length_re_sub (quoted DQ) [DQ; DQ] (after_quoted DQ)
                (first_match_quoted DQ_not_BS) (@after_quoted_suffix DQ)
                (@after_quoted_takes DQ) content) as H1.
  set (t1 := re_sub (quoted DQ) [DQ; DQ] content) in *.
  pose proof (@length_re_sub (quoted SQ) [SQ; SQ] (after_quoted SQ)
                (first_match_quoted SQ_not_BS) (@after_quoted_suffix SQ)
                (@after_quoted_takes SQ) t1) as H2.
  set (t2 := re_sub (quoted SQ) [SQ; SQ] t1) in *.
  pose proof (@length_re_sub single_comment [] after_single_comment
                first_match_single_comment after_single_comment_suffix
                after_single_comment_takes t2) as H3.
  set (t3 := re_sub single_comment [] t2) in *.
  assert (H4 : length (remove_multi_comments t3) <= length t3).
  { apply (remove_multi_comments_invariant (fun t => length t <= length t3));
      [| |lia].
    - intros t t' E H. apply multi_comment_step_shortens in E. lia.
    - intros t r' E H. destruct (multi_comment_step_break_prefix _ E) as [w ->].
      rewrite length_app in H. lia. }
  lia.
Qed.

(** X16. What the stripper returns holds no [//]: no start of a line
    comment is left, not even one put together by the removal of a block
    comment. *)
Theorem strip_leaves_no_line_comment (content : text) :
  contains SLASHES (remove_comments_and_strings content) = false.
Proof. apply remove_comments_and_strings_no_SLASHES. Qed.

(** X17. A text with no quote of either kind, no [//] and no opening block
    marker is returned as it is: the stripper does not touch code that has
    no literal and no comment. *)
Theorem strip_keeps_plain_text (content : text) :
  mem DQ content = false -> mem SQ content = false ->
  contains SLASHES content = false -> contains OPEN content = false ->
  remove_comments_and_strings content = content.
Proof.
  intros Hd Hs Hl Ho.
  unfold remove_comments_and_strings, remove_strings_and_line_comments.
  rewrite (re_sub_quoted_no_quote DQ_not_BS _ Hd).
  rewrite (re_sub_quoted_no_quote SQ_not_BS _ Hs).
  rewrite (re_sub_single_comment_id _ Hl).
  apply remove_multi_comments_id, Ho.
Qed.

Lemma strip_keeps_plain_text_witness :
  let content := T "for (i = 0; i < n / 2; i++) { sum += a[i] * b[i]; }" in
  mem DQ content = false /\ mem SQ content = false
  /\ contains SLASHES content = false /\ contains OPEN content = false
  /\ remove_comments_and_strings content = content.
Proof.
  intros content.
  assert (Hd : mem DQ content = false) by reflexivity.
  assert (Hs : mem SQ content = false) by reflexivity.
  assert (Hl : contains SLASHES content = false) by reflexivity.
  assert (Ho : contains OPEN content = false) by reflexivity.
  split; [exact Hd|split; [exact Hs|split; [exact Hl|split; [exact Ho|]]]].
  exact (@strip_keeps_plain_text content Hd Hs Hl Ho).
Defined.

Lemma multi_comment_step_cons (c : ascii) (t : text) :
  c <> "/"%char ->
  multi_comment_step (c :: t)
  = match multi_comment_step t with
    | Continue t' => Continue (c :: t')
    | Break r => Break (c :: r)
    end.
Proof.
  intros Hc. rewrite !multi_comment_step_find. cbn [find].
  assert (E : startswith OPEN (c :: t) = false).
  { cbn [OPEN T list_ascii_of_string startswith].
    destruct (Ascii.eqb_spec "/"%char c); [congruence|reflexivity]. }
  rewrite E. destruct (find OPEN t) as [i|]; cbn [option_map]; [|reflexivity].
  cbn [skipn firstn]. destruct (find CLOSE (skipn i t)); reflexivity.
Qed.

Lemma multi_comment_loop_cons (c : ascii) :
  c <> "/"%char ->
  forall fuel t r, multi_comment_loop fuel t = Some r ->
  multi_comment_loop fuel (c :: t) = Some (c :: r).
Proof.
  intros Hc. induction fuel as [|fuel IH]; intros t r; [discriminate|].
  cbn [multi_comment_loop]. rewrite (multi_comment_step_cons t Hc).
  destruct (multi_comment_step t); [apply IH|]. intros [= <-]. reflexivity.
Qed.

Lemma remove_multi_comments_cons (c : ascii) (t : text) :
  c <> "/"%char ->
  remove_multi_comments (c :: t) = c :: remove_multi_comments t.
Proof.
  intros Hc.
  pose proof (remove_multi_comments_loop (c :: t) 0) as H1.
  pose proof (remove_multi_comments_loop t 1) as H2.
  apply (multi_comment_loop_cons Hc) in H2.
  replace (S (length t) + 1) with (S (length (c :: t)) + 0) in H2
    by (simpl; lia).
  congruence.
Qed.

Lemma remove_comments_and_strings_cons (c : ascii) (t : text) :
  plain_char c = true ->
  remove_comments_and_strings (c :: t) = c :: remove_comments_and_strings t.
Proof.
  unfold plain_char. intros H. apply negb_true_iff in H.
  apply orb_false_elim in H as [H Hs]. apply orb_false_elim in H as [Hd Hq].
  unfold remove_comments_and_strings, remove_strings_and_line_comments.
  rewrite (@re_sub_nomatch (quoted DQ) [DQ; DQ] (after_quoted DQ)
             (first_match_quoted DQ_not_BS) c t)
    by (cbn [after_quoted]; rewrite Ascii.eqb_sym, Hd; reflexivity).
  rewrite (@re_sub_nomatch (quoted SQ) [SQ; SQ] (after_quoted SQ)
             (first_match_quoted SQ_not_BS) c _)
    by (cbn [after_quoted]; rewrite Ascii.eqb_sym, Hq; reflexivity).
  rewrite (@re_sub_nomatch single_comment [] after_single_comment
             first_match_single_comment c _)
    by (unfold after_single_comment;
        cbn [T list_ascii_of_string startswith];
        rewrite Ascii.eqb_sym, Hs; reflexivity).
  apply remove_multi_comments_cons.
  intros ->. discriminate.
Qed.

(** X18. The stripper passes over the plain characters a text starts with:
    what comes before the first quote or slash is returned as it is, in
    front of what the stripper makes of the rest. *)
Theorem strip_passes_plain_prefix (w t : text) :
  forallb plain_char w = true ->
  remove_comments_and_strings (w ++ t) = w ++ remove_comments_and_strings t.
Proof.
  induction w as [|c w IH]; [reflexivity|]. cbn [forallb]. intros H.
  apply andb_prop in H as [Hc Hw].
  change ((c :: w) ++ t) with (c :: (w ++ t)).
  rewrite (@remove_comments_and_strings_cons c (w ++ t) Hc), (IH Hw).
  reflexivity.
Qed.

Lemma strip_passes_plain_prefix_witness :
  let w := T "int total = count * 2; " in
  let t := T "// twice" ++ [NL] ++ T "return total;" in
  forallb plain_char w = true
  /\ remove_comments_and_strings (w ++ t)
     = w ++ remove_comments_and_strings t.
Proof.
  intros w t.
  assert (H : forallb plain_char w = true) by reflexivity.
  split; [exact H|].
  exact (@strip_passes_plain_prefix w t H).
Defined.

(** ** More on the line classifier *)

Lemma how_many_cons (f : text -> bool) (raw : text) (lines : list text) :
  how_many f (raw :: lines)
  = ((if f raw then 1 else 0) + how_many f lines)%Z.
Proof.
  unfold how_many. cbn [filter]. destruct (f raw); cbn [length]; lia.
Qed.

Lemma count_line_blank (st : line_counts) (raw : text) :
  blank (count_line st raw)
  = (blank st + if line_is_blank raw then 1 else 0)%Z.
Proof.
  destruct st as [l c b f]. unfold count_line, line_is_blank.
  destruct (strip raw) as [|x line]; cbn [is_empty blank]; [reflexivity|].
  repeat match goal with
         | |- context [if ?e then _ else _] => destruct e
         end; cbn [blank]; lia.
Qed.

(** X19. The blank count is the number of lines that are empty once
    trimmed, wherever they stand: a blank line inside a block comment is
    counted blank, not comment. *)
Theorem blank_lines_are_the_empty_lines (content : text) :
  snd (count_lines (Some content)) = how_many line_is_blank (readlines content).
Proof.
  unfold count_lines. cbn [snd].
  assert (H : forall lines st,
             blank (fold_left count_line lines st)
             = (blank st + how_many line_is_blank lines)%Z).
  { induction lines as [|raw lines IH]; intros st; cbn [fold_left].
    - unfold how_many. simpl. lia.
    - rewrite IH, count_line_blank, how_many_cons. lia. }
  rewrite H. reflexivity.
Qed.

Lemma readlines_concat (t : text) : concat (readlines t) = t.
Proof.
  induction t as [|c t IH]; [reflexivity|]. cbn [readlines].
  destruct (Ascii.eqb c NL).
  - cbn [concat app]. rewrite IH. reflexivity.
  - destruct (readlines t) as [|l ls].
    + cbn in IH. subst t. reflexivity.
    + cbn [concat] in IH |- *. rewrite <- IH. reflexivity.
Qed.

(** What occurs in a line occurs in the text. *)
Lemma readlines_contains (p raw t : text) :
  In raw (readlines t) -> contains p raw = true -> contains p t = true.
Proof.
  intros Hin Hc. apply in_split in Hin as (l1 & l2 & E).
  rewrite <- (readlines_concat t), E, concat_app. cbn [concat].
  apply contains_app_r, contains_app_l, Hc.
Qed.

Lemma count_line_without_markers (st : line_counts) (raw : text) :
  in_multiline_comment st = false ->
  contains OPEN raw = false -> contains CLOSE raw = false ->
  count_line st raw
  = LineCounts (loc st + if line_is_plain_code raw then 1 else 0)
               (comments st + if line_is_line_comment raw then 1 else 0)
               (blank st + if line_is_blank raw then 1 else 0)
               false.
Proof.
  destruct st as [l c b f]. cbn [in_multiline_comment loc comments blank].
  intros -> Ho Hc.
  unfold count_line, line_is_plain_code, line_is_line_comment, line_is_blank.
  rewrite contains_strip_OPEN, contains_strip_CLOSE, Ho, Hc.
  change (T "//") with SLASHES.
  destruct (strip raw) as [|x line] eqn:E; cbn [is_empty andb negb].
  - cbn [SLASHES T list_ascii_of_string startswith]. f_equal; lia.
  - destruct (startswith SLASHES (x :: line)); cbn [negb]; f_equal; lia.
Qed.

(** X20. In a file without block-comment marker the three counts are those of
    the lines taken one by one: a line is a comment exactly when, once
    trimmed, it starts with [//], blank when it is empty, and code
    otherwise. *)
Theorem count_lines_without_block_comments (content : text) :
  contains OPEN content = false -> contains CLOSE content = false ->
  count_lines (Some content)
  = (how_many line_is_plain_code (readlines content),
     how_many line_is_line_comment (readlines content),
     how_many line_is_blank (readlines content)).
Proof.
  intros Ho Hc. unfold count_lines.
  assert (H : forall lines st,
             (forall raw, In raw lines ->
                          contains OPEN raw = false /\ contains CLOSE raw = false) ->
             in_multiline_comment st = false ->
             fold_left count_line lines st
             = LineCounts (loc st + how_many line_is_plain_code lines)
                          (comments st + how_many line_is_line_comment lines)
                          (blank st + how_many line_is_blank lines)
                          false).
  { induction lines as [|raw lines IH]; intros st Hl Hf; cbn [fold_left].
    - destruct st as [l c b f]. cbn in Hf |- *. subst f.
      unfold how_many; cbn. f_equal; lia.
    - destruct (Hl raw (or_introl eq_refl)) as [Hro Hrc].
      rewrite (count_line_without_markers st raw Hf Hro Hrc).
      rewrite IH; [|intros r Hr; apply Hl; right; exact Hr|reflexivity].
      cbn [loc comments blank]. rewrite !how_many_cons. f_equal; lia. }
  rewrite H; [reflexivity| |reflexivity].
  intros raw Hin. split.
  - destruct (contains OPEN raw) eqn:E; [|reflexivity].
    rewrite (readlines_contains _ _ _ Hin E) in Ho. discriminate.
  - destruct (contains CLOSE raw) eqn:E; [|reflexivity].
    rewrite (readlines_contains _ _ _ Hin E) in Hc. discriminate.
Qed.

Lemma count_lines_without_block_comments_witness :
  let content := T "// setup" ++ [NL] ++ T "int x = 1; // one" ++ [NL]
                 ++ [NL] ++ T "  // done" ++ [NL] in
  contains OPEN content = false /\ contains CLOSE content = false
  /\ count_lines (Some content) = (1, 2, 1)%Z.
Proof.
  intros content.
  assert (Ho : contains OPEN content = false) by reflexivity.
  assert (Hc : contains CLOSE content = false) by reflexivity.
  split; [exact Ho|split; [exact Hc|]].
  exact (@count_lines_without_block_comments content Ho Hc).
Defined.

(** ** Inside a block comment *)

Lemma lstrip_head (t : text) (x : ascii) (tl : text) :
  lstrip t = x :: tl -> is_space x = false.
Proof.
  induction t as [|c t IH]; cbn [lstrip]; [discriminate|].
  destruct (is_space c) eqn:E; [exact IH|].
  intros H. injection H as <- _. exact E.
Qed.

Lemma lstrip_app_nonspace (u : text) (c : ascii) :
  is_space c = false -> lstrip (u ++ [c]) = lstrip u ++ [c].
Proof.
  intros Hc. induction u as [|a u IH]; cbn [app lstrip].
  - rewrite Hc. reflexivity.
  - destruct (is_space a); [exact IH|reflexivity].
Qed.

Lemma rstrip_cons_nonspace (c : ascii) (t : text) :
  is_space c = false -> rstrip (c :: t) = c :: rstrip t.
Proof.
  intros Hc. unfold rstrip. cbn [rev].
  rewrite lstrip_app_nonspace by exact Hc.
  rewrite rev_app_distr. reflexivity.
Qed.

Lemma rstrip_last (t u : text) (x : ascii) :
  rstrip t = u ++ [x] -> is_space x = false.
Proof.
  unfold rstrip. intros H.
  apply (f_equal (@rev ascii)) in H.
  rewrite rev_involutive, rev_app_distr in H. cbn [rev app] in H.
  exact (lstrip_head _ H).
Qed.

(** A trimmed line neither starts nor ends with white space. *)
Lemma strip_head (t : text) (x : ascii) (tl : text) :
  strip t = x :: tl -> is_space x = false.
Proof.
  unfold strip. destruct (lstrip t) as [|a r] eqn:E; [discriminate|].
  pose proof (lstrip_head _ E) as Ha.
  rewrite rstrip_cons_nonspace by exact Ha.
  intros H. injection H as <- _. exact Ha.
Qed.

Lemma strip_last (t u : text) (x : ascii) :
  strip t = u ++ [x] -> is_space x = false.
Proof. unfold strip. apply rstrip_last. Qed.

Lemma endswith_app (p t : text) : endswith p (t ++ p) = true.
Proof. unfold endswith. rewrite rev_app_distr. apply startswith_app. Qed.

Lemma endswith_split (p t : text) :
  endswith p t = true -> exists u, t = u ++ p.
Proof.
  unfold endswith. intros H. apply startswith_split in H.
  exists (rev (skipn (length (rev p)) (rev t))).
  rewrite <- (rev_involutive p) at 2. rewrite <- rev_app_distr, <- H.
  symmetry. apply rev_involutive.
Qed.

(** [comment_only] in words: the line is [/*], a middle without line end,
    and [*/]. *)
Lemma comment_only_spec (line : text) :
  comment_only line = true
  <-> exists mid, line = OPEN ++ mid ++ CLOSE /\ mem NL mid = false.
Proof.
  unfold comment_only. split.
  - intros H. apply andb_prop in H as [H Hnl]. apply andb_prop in H as [Ho Hc].
    apply startswith_split in Ho. change (length OPEN) with 2 in Ho.
    apply endswith_split in Hc as [mid Hc].
    exists mid. rewrite Hc in Ho. split; [exact Ho|].
    apply negb_true_iff in Hnl. rewrite Ho, !mem_app in Hnl.
    apply orb_false_elim in Hnl as [_ Hnl].
    apply orb_false_elim in Hnl as [Hnl _]. exact Hnl.
  - intros (mid & -> & Hnl).
    rewrite startswith_app. change (skipn 2 (OPEN ++ mid ++ CLOSE)) with (mid ++ CLOSE).
    rewrite endswith_app, !mem_app, Hnl. reflexivity.
Qed.

Lemma star_loop_self (step : mstate -> list mstate) (fuel : nat) (s : mstate) :
  In s (star_loop step fuel s).
Proof.
  destruct fuel; cbn [star_loop]; [left; reflexivity|].
  apply in_or_app. right. left. reflexivity.
Qed.

(** A repetition of a character class can stop after any prefix made of
    characters of the class. *)
Lemma star_chr_reach (p : ascii -> bool) (w : text) :
  forall fuel s r,
  rest s = w ++ r -> forallb p w = true -> length w <= fuel ->
  exists s', In s' (star_loop (matches (Chr p)) fuel s) /\ rest s' = r.
Proof.
  induction w as [|c w IH]; intros fuel s r E Hw Hlen.
  - exists s. split; [apply star_loop_self|exact E].
  - destruct fuel as [|fuel]; [simpl in Hlen; lia|].
    cbn [forallb] in Hw. apply andb_prop in Hw as [Hc Hw].
    destruct (IH fuel (MState (Some c) (w ++ r) (grp s)) r eq_refl Hw
                 ltac:(simpl in Hlen; lia)) as (s' & Hin & Hr).
    exists s'. split; [|exact Hr].
    cbn [star_loop]. apply in_or_app. left.
    apply in_flat_map. exists (MState (Some c) (w ++ r) (grp s)). split.
    + cbn [matches]. rewrite E. cbn [app]. rewrite Hc. left. reflexivity.
    + cbn [rest]. rewrite E. cbn [app length].
      rewrite (proj2 (Nat.ltb_lt _ _) (Nat.lt_succ_diag_r _)). exact Hin.
Qed.

Lemma in_matches_seq_intro (a b : regex) (s s1 s' : mstate) :
  In s1 (matches a s) -> In s' (matches b s1) -> In s' (matches (Seq a b) s).
Proof.
  intros H1 H2. cbn [matches]. apply in_flat_map. exists s1. auto.
Qed.

Lemma is_some_hd_error {A : Type} (l : list A) :
  is_some (hd_error l) = negb (match l with [] => true | _ :: _ => false end).
Proof. destruct l; reflexivity. Qed.

Lemma forallb_not_mem (c : ascii) (w : text) :
  forallb (fun x => negb (Ascii.eqb x c)) w = negb (mem c w).
Proof.
  induction w as [|a w IH]; [reflexivity|].
  cbn [forallb mem existsb]. fold (mem c w). rewrite IH, negb_orb.
  rewrite (Ascii.eqb_sym a c). reflexivity.
Qed.

Lemma all_spaces_last (w : text) :
  forallb is_space w = true -> w <> [] ->
  exists u x, w = u ++ [x] /\ is_space x = true.
Proof.
  intros Hw Hne. destruct (exists_last Hne) as (u & x & ->).
  exists u, x. split; [reflexivity|].
  rewrite forallb_app in Hw. apply andb_prop in Hw as [_ Hw].
  cbn in Hw. rewrite andb_true_r in Hw. exact Hw.
Qed.

(** On a line that neither starts nor ends with white space, the pattern of
    the comment-only line matches exactly when the line is [/*], a middle
    without line end, and [*/]. *)
Lemma block_comment_line_match (line : text) :
  (forall x tl, line = x :: tl -> is_space x = false) ->
  (forall u x, line = u ++ [x] -> is_space x = false) ->
  is_some (re_match_at0 block_comment_line line) = comment_only line.
Proof.
  intros Hhead Hlast.
  assert (E : is_some (re_match_at0 block_comment_line line)
              = is_some (hd_error (matches block_comment_line
                                           (MState None line None)))).
  { unfold re_match_at0, first_match.
    destruct (hd_error (matches block_comment_line (MState None line None)));
      reflexivity. }
  rewrite E, is_some_hd_error. clear E.
  destruct (comment_only line) eqn:C.
  - apply comment_only_spec in C as (mid & -> & Hnl).
    assert (Hin : exists s', In s' (matches block_comment_line
                    (MState None (OPEN ++ mid ++ CLOSE) None))).
    { unfold block_comment_line.
      destruct (@star_chr_reach (fun c => negb (Ascii.eqb c NL)) mid
                  (length (mid ++ CLOSE))
                  (MState (Some "*"%char) (mid ++ CLOSE) None) CLOSE eq_refl)
        as (s4 & H4 & R4).
      { rewrite forallb_not_mem, Hnl. reflexivity. }
      { rewrite length_app. lia. }
      destruct s4 as [p4 r4 g4]. cbn [rest] in R4. subst r4.
      exists (MState (Some "/"%char) [] g4).
      apply in_matches_seq_intro with (MState None (OPEN ++ mid ++ CLOSE) None);
        [left; reflexivity|].
      apply in_matches_seq_intro with (MState None (OPEN ++ mid ++ CLOSE) None);
        [apply star_loop_self|].
      apply in_matches_seq_intro with (MState (Some "*"%char) (mid ++ CLOSE) None);
        [rewrite matches_lit; left; reflexivity|].
      apply in_matches_seq_intro with (MState p4 CLOSE g4); [exact H4|].
      apply in_matches_seq_intro with (MState (Some "/"%char) [] g4);
        [rewrite matches_lit; left; reflexivity|].
      apply in_matches_seq_intro with (MState (Some "/"%char) [] g4);
        [apply star_loop_self|].
      left; reflexivity. }
    destruct Hin as (s' & Hin).
    destruct (matches block_comment_line (MState None (OPEN ++ mid ++ CLOSE) None));
      [destruct Hin|reflexivity].
  - destruct (matches block_comment_line (MState None line None)) as [|s' l] eqn:M;
      [reflexivity|exfalso].
    assert (Hin : In s' (matches block_comment_line (MState None line None)))
      by (rewrite M; left; reflexivity).
    clear M. unfold block_comment_line in Hin.
    apply in_matches_seq in Hin as (s1 & H1 & Hin).
    cbn [matches at_bol prev] in H1. destruct H1 as [<-|[]].
    apply in_matches_seq in Hin as (s2 & H2 & Hin).
    cbn [matches] in H2. apply star_chr_consumed in H2 as (w & E2 & Hw).
    cbn [rest] in E2.
    assert (w = []).
    { destruct w as [|x w]; [reflexivity|].
      cbn [forallb] in Hw. apply andb_prop in Hw as [Hx _].
      rewrite (Hhead x (w ++ rest s2) E2) in Hx. discriminate. }
    subst w. cbn [app] in E2.
    apply in_matches_seq in Hin as (s3 & H3 & Hin).
    rewrite matches_lit in H3. rewrite <- E2 in H3.
    destruct (startswith (T "/*") line) eqn:So; [|destruct H3].
    destruct H3 as [<-|[]].
    apply in_matches_seq in Hin as (s4 & H4 & Hin).
    cbn [matches] in H4. apply star_chr_consumed in H4 as (mid & E4 & Hmid).
    cbn [rest String.length] in E4.
    apply in_matches_seq in Hin as (s5 & H5 & Hin).
    rewrite matches_lit in H5.
    destruct (startswith (T "*/") (rest s4)) eqn:Sc; [|destruct H5].
    destruct H5 as [<-|[]].
    apply in_matches_seq in Hin as (s6 & H6 & Hin).
    cbn [matches] in H6. clear Hw.
    apply star_chr_consumed in H6 as (w & E6 & Hw).
    cbn [rest String.length] in E6.
    cbn [matches] in Hin.
    destruct (at_eol false s6) eqn:Ee; [|destruct Hin].
    assert (Hsp : forallb is_space (w ++ rest s6) = true).
    { rewrite forallb_app, Hw. unfold at_eol in Ee.
      destruct (rest s6) as [|c [|c' tl]]; [reflexivity| |].
      - cbn in Ee. rewrite andb_true_r in Ee.
        apply Ascii.eqb_eq in Ee. subst c. reflexivity.
      - cbn in Ee. rewrite andb_false_r in Ee. discriminate. }
    apply startswith_split in So, Sc.
    change (length (T "/*")) with 2 in So. change (length (T "*/")) with 2 in Sc.
    rewrite E6 in Sc. rewrite Sc in E4. rewrite E4 in So.
    assert (w ++ rest s6 = []).
    { destruct (w ++ rest s6) as [|a r] eqn:Ew; [reflexivity|].
      destruct (@all_spaces_last (a :: r) Hsp ltac:(discriminate))
        as (u & x & Eu & Hx).
      rewrite Eu in So.
      rewrite (Hlast (T "/*" ++ mid ++ T "*/" ++ u) x) in Hx; [discriminate|].
      rewrite So, <- !app_assoc. reflexivity. }
    rewrite H, app_nil_r in So.
    assert (C' : comment_only line = true).
    { apply comment_only_spec. exists mid. split; [exact So|].
      rewrite forallb_not_mem in Hmid. apply negb_true_iff in Hmid. exact Hmid. }
    congruence.
Qed.

(** C3, amended. While the flag is set, a line that is blank once trimmed
    is counted as blank and leaves the flag set; a line that holds both
    markers is counted as a comment when, once trimmed, it is [/*], a middle
    without line end, and [*/], and as code otherwise, and leaves the flag
    set; every other line is counted as a comment, and clears the flag
    exactly when it holds the closing marker.  The rule for a line with both
    markers is the same when the flag is not set: it never changes the
    flag. *)
Theorem inside_comment_line_classified (st : line_counts) (raw : text) :
  in_multiline_comment st = true ->
  count_line st raw
  = (if line_is_blank raw
     then LineCounts (loc st) (comments st) (blank st + 1) true
     else if contains OPEN raw && contains CLOSE raw
     then if comment_only (strip raw)
          then LineCounts (loc st) (comments st + 1) (blank st) true
          else LineCounts (loc st + 1) (comments st) (blank st) true
     else LineCounts (loc st) (comments st + 1) (blank st)
                     (negb (contains CLOSE raw)))
  /\ (forall st0 : line_counts,
        contains OPEN raw && contains CLOSE raw = true ->
        count_line st0 raw
        = if comment_only (strip raw)
          then LineCounts (loc st0) (comments st0 + 1) (blank st0)
                          (in_multiline_comment st0)
          else LineCounts (loc st0 + 1) (comments st0) (blank st0)
                          (in_multiline_comment st0)).
Proof.
  intros Hf.
  assert (M : is_some (re_match_at0 block_comment_line (strip raw))
              = comment_only (strip raw)).
  { apply block_comment_line_match.
    - intros x tl E. exact (@strip_head raw x tl E).
    - intros u x E. exact (@strip_last raw u x E). }
  split.
  - destruct st as [l c b f]. cbn [in_multiline_comment] in Hf. subst f.
    cbn [loc comments blank]. unfold count_line, line_is_blank.
    rewrite contains_strip_OPEN, contains_strip_CLOSE, M.
    destruct (strip raw) as [|x line]; cbn [is_empty]; [reflexivity|].
    destruct (contains OPEN raw), (contains CLOSE raw); cbn [andb negb];
      try reflexivity.
    destruct (comment_only (x :: line)); reflexivity.
  - intros [l c b f] Hboth. cbn [loc comments blank in_multiline_comment].
    unfold count_line.
    rewrite contains_strip_OPEN, contains_strip_CLOSE, M, Hboth.
    destruct (strip raw) as [|x line] eqn:E.
    + apply andb_prop in Hboth as [Ho _].
      rewrite <- contains_strip_OPEN, E in Ho. discriminate.
    + destruct (comment_only (x :: line)); reflexivity.
Qed.

Lemma inside_comment_line_classified_witness :
  let raw := T "  /* note */  " ++ [NL] in
  in_multiline_comment inside_comment = true
  /\ count_line inside_comment raw = LineCounts 0 2 0 true.
Proof.
  intros raw.
  assert (H : in_multiline_comment inside_comment = true) by reflexivity.
  split; [exact H|].
  exact (proj1 (inside_comment_line_classified inside_comment raw H)).
Defined.
